(** * VSCodeVim: cursor set, count accumulation, registers, macros,
      content-change compression and sneak markers

    A shallow embedding of the parts of [src/state/vimState.ts] and of the
    action / sneak-highlighter sources bundled with it that the
    specification makes claims about.

    JavaScript numbers are embedded as [Z] (the code only ever holds
    integers in them; the arithmetic on counts rounds as the doubles of
    the code do, see [js_round]), strings as [string] with [String.length]
    standing for [.length], arrays as [list], and a JS [Map] as an
    insertion-ordered association list ([JsMap]).  Mutable objects are embedded by explicit
    state passing: every method takes the receiver and returns the updated
    one. *)

From Stdlib Require Import ZArith Ascii String.
From stdpp Require Import base decidable option list strings pretty gmap.

Open Scope Z_scope.

(** ** Part I: the embedding *)

(** *** The editor API types the code receives *)

Module vscode.

(** [vscode.Position]: a zero-based (line, character) pair. *)
Record Position := mkPosition { line : Z; character : Z }.

(** [vscode.Range]; its second field is called [end] in the source. *)
Record Range := mkRange { start : Position; end_ : Position }.

(** [vscode.TextDocumentContentChangeEvent]. *)
Record TextDocumentContentChangeEvent := mkChange {
  range : Range;
  rangeOffset : Z;
  rangeLength : Z;
  text : string
}.

(** [vscode.TextEditor], reduced to the lines of its document. *)
Record TextEditor := mkTextEditor { document : list string }.

#[global] Instance Position_eq_dec : EqDecision Position.
Proof. solve_decision. Defined.

#[global] Instance Range_eq_dec : EqDecision Range.
Proof. solve_decision. Defined.

End vscode.

Abbreviation Position := vscode.Position.

(** *** [Cursor] (common/motion/cursor) *)

(** Modelled from the spec: the [Cursor] class is imported from
    [../common/motion/cursor], which is not among the sources.  The spec
    describes it as an ordered pair of positions with structural identity;
    [withNewStart] / [withNewStop] rebuild the pair with one end replaced. *)
Record Cursor := mkCursor { start : Position; stop : Position }.

#[global] Instance Cursor_eq_dec : EqDecision Cursor.
Proof. solve_decision. Defined.

Definition withNewStart (c : Cursor) (value : Position) : Cursor :=
  mkCursor value (stop c).

Definition withNewStop (c : Cursor) (value : Position) : Cursor :=
  mkCursor (start c) value.

(** *** JavaScript [Map<string, V>]

    A JS [Map] iterates in insertion order; [set] on a key that is already
    present keeps the key's place and replaces its value. *)
Module JsMap.
Section JsMap.
Context {V : Type}.

Definition t := list (string * V).

Definition empty : t := [].

Fixpoint set (k : string) (v : V) (m : t) : t :=
  match m with
  | [] => [(k, v)]
  | (k', v') :: m' =>
      if decide (k' = k) then (k', v) :: m' else (k', v') :: set k v m'
  end.

Fixpoint get (k : string) (m : t) : option V :=
  match m with
  | [] => None
  | (k', v') :: m' => if decide (k' = k) then Some v' else get k m'
  end.

Definition keys (m : t) : list string := m.*1.

Definition values (m : t) : list V := m.*2.

Definition size (m : t) : nat := length m.
End JsMap.
Arguments t : clear implicits.
End JsMap.

(** *** Actions and the pending command ([RecordedState]) *)

(** The action classes of the catalog that the modelled code tells apart
    with [instanceof], plus a tag for operators and one for the rest. *)
Module Tag.
Inductive ActionClass :=
| CommandNumber
| CommandRegister
| CommandRecordMacro
| CommandQuitRecordMacro
| MoveToColumnZero
| BaseOperator (key : string)
| OtherAction (key : string).

#[global] Instance ActionClass_eq_dec : EqDecision ActionClass.
Proof. solve_decision. Defined.
End Tag.

Abbreviation ActionClass := Tag.ActionClass.

(** An action instance: its class, the keys that matched it and the
    mutable [isCompleteAction] flag. *)
Record BaseAction := mkAction {
  actionClass : ActionClass;
  keysPressed : list string;
  isCompleteAction : bool
}.

Definition instanceof (a : option BaseAction) (c : ActionClass) : bool :=
  match a with
  | Some a => bool_decide (actionClass a = c)
  | None => false
  end.

(** Modelled from the spec: [RecordedState] is imported from
    [./recordedState], which is not among the sources.  The fields are the
    ones the spec lists for the pending command and the modelled code reads
    or writes; a fresh one has count 0, no actions and the unnamed
    register. *)
Record RecordedState := mkRecordedState {
  count : Z;
  operatorCount : Z;
  actionsRun : list BaseAction;
  registerName : string
}.

Definition unnamedRegister : string := String (ascii_of_nat 34) EmptyString.

Definition new_RecordedState : RecordedState :=
  mkRecordedState 0 0 [] unnamedRegister.

Definition with_count (n : Z) (r : RecordedState) : RecordedState :=
  mkRecordedState n (operatorCount r) (actionsRun r) (registerName r).

Definition with_operatorCount (n : Z) (r : RecordedState) : RecordedState :=
  mkRecordedState (count r) n (actionsRun r) (registerName r).

Definition with_actionsRun (l : list BaseAction) (r : RecordedState)
  : RecordedState :=
  mkRecordedState (count r) (operatorCount r) l (registerName r).

Definition with_registerName (n : string) (r : RecordedState)
  : RecordedState :=
  mkRecordedState (count r) (operatorCount r) (actionsRun r) n.

(** *** [VimState] *)

(** What [VimState.logger.warn] is called with. *)
Inductive Warning :=
| InvalidCursorStartPosition (value : Position)
| InvalidCursorStopPosition (value : Position)
| InvalidCursorPosition (cursor : Cursor)
| TriedToSetCursorsToEmpty.

(** The fields of [VimState] the modelled code touches; [logger] collects
    the warnings in the order they are emitted. *)
Record VimState := mkVimState {
  editor : vscode.TextEditor;
  _cursors : list Cursor;
  recordedState : RecordedState;
  macro : option RecordedState;
  logger : list Warning
}.

Definition with_cursors (cs : list Cursor) (v : VimState) : VimState :=
  mkVimState (editor v) cs (recordedState v) (macro v) (logger v).

Definition with_recordedState (r : RecordedState) (v : VimState) : VimState :=
  mkVimState (editor v) (_cursors v) r (macro v) (logger v).

Definition with_macro (m : option RecordedState) (v : VimState) : VimState :=
  mkVimState (editor v) (_cursors v) (recordedState v) m (logger v).

Definition warn (w : Warning) (v : VimState) : VimState :=
  mkVimState (editor v) (_cursors v) (recordedState v) (macro v)
    (logger v ++ [w]).

(** The constructor: one caret at (0, 0), a fresh pending command, no macro
    being recorded. *)
Definition new_VimState (ed : vscode.TextEditor) : VimState :=
  mkVimState ed
    [mkCursor (vscode.mkPosition 0 0) (vscode.mkPosition 0 0)]
    new_RecordedState None [].

Section Cursors.

(** [Position.isValid(editor)], [Cursor.isValid(editor)] and
    [Cursor.toString()] belong to the position and cursor modules; the
    setters are embedded over any choice of them. *)
Variable Position_isValid : Position -> vscode.TextEditor -> bool.
Variable Cursor_isValid : Cursor -> vscode.TextEditor -> bool.
Variable Cursor_toString : Cursor -> string.

(** [get cursors()] hands out the array itself. *)
Definition cursors (this : VimState) : list Cursor := _cursors this.

(** [set cursorStartPosition(value)].  [this.cursors[0]] is read before it
    is written; [None] is the [TypeError] of calling [withNewStart] on
    [undefined] when the array is empty. *)
Definition set_cursorStartPosition (value : Position) (this : VimState)
  : option VimState :=
  let this :=
    if negb (Position_isValid value (editor this))
    then warn (InvalidCursorStartPosition value) this
    else this in
  match cursors this !! 0%nat with
  | Some c0 =>
      Some (with_cursors (<[0%nat := withNewStart c0 value]> (cursors this))
              this)
  | None => None
  end.

(** [set cursorStopPosition(value)]. *)
Definition set_cursorStopPosition (value : Position) (this : VimState)
  : option VimState :=
  let this :=
    if negb (Position_isValid value (editor this))
    then warn (InvalidCursorStopPosition value) this
    else this in
  match cursors this !! 0%nat with
  | Some c0 =>
      Some (with_cursors (<[0%nat := withNewStop c0 value]> (cursors this))
              this)
  | None => None
  end.

(** The [for (const cursor of value)] loop of the [cursors] setter: it
    threads the map being filled and the receiver (for its log). *)
Fixpoint set_cursors_loop (value : list Cursor)
    (map : JsMap.t Cursor) (this : VimState)
  : JsMap.t Cursor * VimState :=
  match value with
  | [] => (map, this)
  | cursor :: value' =>
      let this :=
        if negb (Cursor_isValid cursor (editor this))
        then warn (InvalidCursorPosition cursor) this
        else this in
      set_cursors_loop value'
        (JsMap.set (Cursor_toString cursor) cursor map) this
  end.

(** [set cursors(value)]. *)
Definition set_cursors (value : list Cursor) (this : VimState) : VimState :=
  if decide (length value = 0%nat) then
    warn TriedToSetCursorsToEmpty this
  else
    let '(map, this) := set_cursors_loop value JsMap.empty this in
    with_cursors (JsMap.values map) this.

(** The warnings the setter's loop emits: one per invalid cursor, in the
    order of the assigned list. *)
Definition invalidCursorWarnings (ed : vscode.TextEditor)
    (value : list Cursor) : list Warning :=
  InvalidCursorPosition
    <$> filter (λ c, Cursor_isValid c ed = false) value.

(** [vimState.cursors.push(c)], as the actions do through the getter. *)
Definition cursors_push (c : Cursor) (this : VimState) : VimState :=
  with_cursors (cursors this ++ [c]) this.

(** [get isMultiCursor()]. *)
Definition isMultiCursor (this : VimState) : bool :=
  bool_decide (1 < length (_cursors this))%nat.

(** The states the cursor operations of the class lead to from a freshly
    constructed [VimState]. *)
Inductive reachable : VimState -> Prop :=
| reach_new ed : reachable (new_VimState ed)
| reach_set_cursors value this :
    reachable this -> reachable (set_cursors value this)
| reach_set_start value this this' :
    reachable this ->
    set_cursorStartPosition value this = Some this' -> reachable this'
| reach_set_stop value this this' :
    reachable this ->
    set_cursorStopPosition value this = Some this' -> reachable this'
| reach_push c this :
    reachable this -> reachable (cursors_push c this).

End Cursors.

(** *** JavaScript string primitives used by the actions *)

(** [s.slice(from, to)]: negative indices count from the end, both ends are
    clamped to the string, and an empty string results when they cross. *)
Definition js_slice (s : string) (from to : Z) : string :=
  let len := Z.of_nat (String.length s) in
  let clamp i := if i <? 0 then Z.max (len + i) 0 else Z.min i len in
  let a := clamp from in
  let b := clamp to in
  substring (Z.to_nat a) (Z.to_nat (Z.max (b - a) 0)) s.

(** [s.slice(from)]. *)
Definition js_slice_from (s : string) (from : Z) : string :=
  js_slice s from (Z.of_nat (String.length s)).

Definition js_length (s : string) : Z := Z.of_nat (String.length s).

Definition is_digit (c : ascii) : bool :=
  ((48 <=? nat_of_ascii c) && (nat_of_ascii c <=? 57))%nat.

Definition digit_value (c : ascii) : Z := Z.of_nat (nat_of_ascii c) - 48.

Definition is_whitespace (c : ascii) : bool :=
  let n := nat_of_ascii c in
  ((n =? 32) || ((9 <=? n) && (n <=? 13)))%nat.

Fixpoint skip_whitespace (s : string) : string :=
  match s with
  | String c s' => if is_whitespace c then skip_whitespace s' else s
  | EmptyString => s
  end.

(** The longest run of decimal digits at the head of [s], read as a
    number; [acc] is [None] until a first digit has been seen. *)
Fixpoint parse_digits (s : string) (acc : option Z) : option Z :=
  match s with
  | String c s' =>
      if is_digit c
      then parse_digits s' (Some (default 0 acc * 10 + digit_value c))
      else acc
  | EmptyString => acc
  end.

(** [parseInt(s, 10)]; [None] is [NaN], which is also what [undefined]
    parses to. *)
Definition parseInt (s : option string) : option Z :=
  match s with
  | None => None
  | Some s =>
      match skip_whitespace s with
      | String "-" s' => Z.opp <$> parse_digits s' None
      | String "+" s' => parse_digits s' None
      | s' => parse_digits s' None
      end
  end.

Definition is_upper (c : ascii) : bool :=
  ((65 <=? nat_of_ascii c) && (nat_of_ascii c <=? 90))%nat.

Definition lower_ascii (c : ascii) : ascii :=
  if is_upper c then ascii_of_nat (nat_of_ascii c + 32) else c.

(** [s.toLocaleLowerCase()], on the ASCII letters a register key can be. *)
Fixpoint toLocaleLowerCase (s : string) : string :=
  match s with
  | String c s' => String (lower_ascii c) (toLocaleLowerCase s')
  | EmptyString => EmptyString
  end.

Fixpoint all_upper (s : string) : bool :=
  match s with
  | String c s' => is_upper c && all_upper s'
  | EmptyString => true
  end.

(** [/^[A-Z]+$/.test(s)]. *)
Definition test_upper (s : string) : bool :=
  match s with
  | EmptyString => false
  | _ => all_upper s
  end.

(** *** The position API and the transformations actions ask for *)

(** The methods of [vscode.Position] and the constructor of
    [vscode.Range] that the actions call.  Positions compare by line, then
    by character; [new Range(a, b)] orders its two ends; building a
    position with a negative coordinate throws ([None]). *)
Module PositionApi.

Definition isBefore (a b : Position) : bool :=
  (vscode.line a <? vscode.line b)
  || ((vscode.line a =? vscode.line b)
      && (vscode.character a <? vscode.character b)).

Definition isAfter (a b : Position) : bool := isBefore b a.

Definition isEqual (a b : Position) : bool :=
  (vscode.line a =? vscode.line b)
  && (vscode.character a =? vscode.character b).

Definition newRange (a b : Position) : vscode.Range :=
  if isBefore b a then vscode.mkRange b a else vscode.mkRange a b.

Definition newPosition (line character : Z) : option Position :=
  if (line <? 0) || (character <? 0) then None
  else Some (vscode.mkPosition line character).

(** [p.with(line)]. *)
Definition with_line (p : Position) (line : Z) : option Position :=
  newPosition line (vscode.character p).

End PositionApi.

(** What [recordedState.transformer.addTransformation] is called with by
    the modelled actions. *)
Inductive Transformation :=
| InsertText (position : Position) (text : string)
| ReplaceText (range : vscode.Range) (text : string)
| MacroReplay (register : string) (replay : string).

(** [s.split('\n')]: the pieces between line feeds, at least one. *)
Fixpoint split_lines (s : string) : list string :=
  match s with
  | EmptyString => [EmptyString]
  | String c s' =>
      if bool_decide (c = ascii_of_nat 10) then EmptyString :: split_lines s'
      else match split_lines s' with
           | piece :: pieces => String c piece :: pieces
           | [] => [String c EmptyString]
           end
  end.

(** *** [DocumentContentChangeAction] *)

Module DocumentContentChangeAction.

Abbreviation Change := vscode.TextDocumentContentChangeEvent.

(** The receiver, reduced to its private [contentChanges]. *)
Record t := mk { contentChanges : list Change }.

(** The local function [merge] of [compressChanges]; [None] is
    [undefined]. *)
Definition merge (first second : Change) : option Change :=
  if bool_decide (vscode.rangeOffset first + js_length (vscode.text first)
                  = vscode.rangeOffset second)
     || bool_decide (vscode.rangeLength second = 0)
  then
    Some (vscode.mkChange
            (vscode.range first)
            (vscode.rangeOffset first)
            (vscode.rangeLength first)
            (vscode.text first +:+ vscode.text second))
  else if bool_decide (vscode.rangeOffset first <= vscode.rangeOffset second)
          && bool_decide (vscode.rangeLength second
                          <= js_length (vscode.text first))
  then
    let start := vscode.rangeOffset second - vscode.rangeOffset first in
    let end_ := start + vscode.rangeLength second in
    let text :=
      js_slice (vscode.text first) 0 start
      +:+ vscode.text second
      +:+ js_slice_from (vscode.text first) end_ in
    Some (vscode.mkChange
            (vscode.range first)
            (vscode.rangeOffset first)
            (vscode.rangeLength first)
            text)
  else None.

(** The [for (const change of this.contentChanges)] loop, threading
    [compressed] and [prev]. *)
Fixpoint compress_loop (changes : list Change)
    (compressed : list Change) (prev : option Change)
  : list Change * option Change :=
  match changes with
  | [] => (compressed, prev)
  | change :: changes' =>
      match prev with
      | None => compress_loop changes' compressed (Some change)
      | Some p =>
          match merge p change with
          | Some merged => compress_loop changes' compressed (Some merged)
          | None => compress_loop changes' (compressed ++ [p]) (Some change)
          end
      end
  end.

Definition compressChanges (this : t) : t :=
  let '(compressed, prev) := compress_loop (contentChanges this) [] None in
  match prev with
  | Some p => mk (compressed ++ [p])
  | None => mk compressed
  end.

Definition addChanges (changes : list Change) (this : t) : t :=
  compressChanges (mk (contentChanges this ++ changes)).

(** A freshly built action: [contentChanges = []]. *)
Definition new : t := mk [].

Section Exec.

(** [laterOf] of the position module, left open. *)
Variable laterOf : Position -> Position -> Position.

(** The local function [translate] of [exec]: a position relative to
    [originalLeftBoundary] becomes one relative to [position]. *)
Definition translate (originalLeftBoundary position diffPos : Position)
  : Position :=
  let lineOffset := vscode.line diffPos - vscode.line originalLeftBoundary in
  let char :=
    if lineOffset =? 0
    then vscode.character position + vscode.character diffPos
         - vscode.character originalLeftBoundary
    else vscode.character diffPos in
  vscode.mkPosition (Z.max (vscode.line position + lineOffset) 0)
    (Z.max char 0).

(** The loop of [exec], threading [originalLeftBoundary], [rightBoundary]
    and the transformations added so far; [None] is the exception of
    moving the left boundary to a negative line. *)
Fixpoint exec_loop (position : Position) (changes : list Change)
    (originalLeftBoundary rightBoundary : Position)
    (added : list Transformation) : option (list Transformation) :=
  match changes with
  | [] => Some added
  | change :: changes' =>
      if vscode.line (vscode.start (vscode.range change))
         <? vscode.line originalLeftBoundary
      then
        let linesAffected :=
          vscode.line (vscode.end_ (vscode.range change))
          - vscode.line (vscode.start (vscode.range change)) + 1 in
        let resultLines :=
          Z.of_nat (length (split_lines (vscode.text change))) in
        originalLeftBoundary ←
          PositionApi.with_line originalLeftBoundary
            (vscode.line originalLeftBoundary + resultLines - linesAffected);
        exec_loop position changes' originalLeftBoundary rightBoundary added
      else
        let replaceRange :=
          PositionApi.newRange
            (translate originalLeftBoundary position
               (vscode.start (vscode.range change)))
            (translate originalLeftBoundary position
               (vscode.end_ (vscode.range change))) in
        if PositionApi.isAfter (vscode.start replaceRange) rightBoundary then
          exec_loop position changes' originalLeftBoundary rightBoundary added
        else
          let textDiffLines := split_lines (vscode.text change) in
          let numLinesAdded := Z.of_nat (length textDiffLines) - 1 in
          let newRightBoundary :=
            if numLinesAdded =? 0 then
              vscode.mkPosition (vscode.line (vscode.start replaceRange))
                (vscode.character (vscode.start replaceRange)
                 + js_length (vscode.text change))
            else
              vscode.mkPosition
                (vscode.line (vscode.start replaceRange) + numLinesAdded)
                (js_length (default EmptyString (last textDiffLines))) in
          let rightBoundary := laterOf rightBoundary newRightBoundary in
          let transformation :=
            if PositionApi.isEqual (vscode.start replaceRange)
                 (vscode.end_ replaceRange)
            then InsertText (vscode.start replaceRange) (vscode.text change)
            else ReplaceText replaceRange (vscode.text change) in
          exec_loop position changes' originalLeftBoundary rightBoundary
            (added ++ [transformation])
  end.

(** [exec(position, vimState)], returning the transformations it adds. *)
Definition exec (position : Position) (this : t)
  : option (list Transformation) :=
  match contentChanges this with
  | [] => Some []
  | firstTextDiff :: _ =>
      let originalLeftBoundary :=
        if bool_decide (vscode.text firstTextDiff = EmptyString)
           && (vscode.rangeLength firstTextDiff =? 1)
        then vscode.end_ (vscode.range firstTextDiff)
        else vscode.start (vscode.range firstTextDiff) in
      exec_loop position (contentChanges this) originalLeftBoundary
        position []
  end.

End Exec.

End DocumentContentChangeAction.

(** *** JavaScript numbers

    A count is a JavaScript number, that is an IEEE 754 double.  The code
    only ever stores integers in a count, so a count is embedded as a [Z],
    and the rounding of the arithmetic is written out: the sum, the
    difference and the product of two integers are exact when they are
    below [2 ^ 53] in magnitude, and are otherwise rounded to 53
    significant bits, ties to the even significand (for the finite
    doubles, below [2 ^ 1024]). *)

(** [Number.MAX_SAFE_INTEGER]. *)
Definition MAX_SAFE_INTEGER : Z := 2 ^ 53 - 1.

(** The double nearest to the integer [z]. *)
Definition js_round (z : Z) : Z :=
  let a := Z.abs z in
  if a <? 2 ^ 53 then z
  else
    let ulp := 2 ^ (Z.log2 a - 52) in
    let q := a / ulp in
    let r := a mod ulp in
    let q :=
      if (2 * r <? ulp) || ((2 * r =? ulp) && Z.even q) then q else q + 1 in
    Z.sgn z * (q * ulp).

(** [a + b], [a - b] and [a * b] on integer-valued numbers. *)
Definition js_add (a b : Z) : Z := js_round (a + b).
Definition js_sub (a b : Z) : Z := js_round (a - b).
Definition js_mul (a b : Z) : Z := js_round (a * b).

Arguments js_round : simpl never.
Arguments js_add : simpl never.
Arguments js_sub : simpl never.
Arguments js_mul : simpl never.

(** *** [CommandNumber] *)

Module CommandNumber.

(** [exec]: [this.keysPressed[0]] is the digit that matched [<number>].
    [None] stands for the [NaN] that a non-numeric key would store in
    [count]; the key pattern rules it out. *)
Definition exec (this : BaseAction) (vimState : VimState)
  : option VimState :=
  num ← parseInt (keysPressed this !! 0%nat);
  let rs := recordedState vimState in
  let operatorCount := operatorCount rs in
  if 0 <? operatorCount then
    let i := Z.of_nat (length (actionsRun rs)) - 2 in
    let lastAction :=
      if i <? 0 then None else actionsRun rs !! Z.to_nat i in
    if negb (instanceof lastAction Tag.CommandNumber) then
      Some (with_recordedState
              (with_count (js_mul operatorCount num) rs) vimState)
    else
      Some (with_recordedState
              (with_count
                 (js_add (js_mul (count rs) 10) (js_mul num operatorCount))
                 rs)
              vimState)
  else
    Some (with_recordedState
            (with_count (js_add (js_mul (count rs) 10) num) rs) vimState).

Section Applies.
(** [BaseCommand.doesActionApply] / [couldActionApply] (mode and key
    pattern test of the base class), inherited through [super]. *)
Variable super_doesActionApply : VimState -> list string -> bool.
Variable super_couldActionApply : VimState -> list string -> bool.

Definition doesActionApply (vimState : VimState)
    (keysPressed : list string) : bool :=
  let isZero := bool_decide (keysPressed !! 0%nat = Some "0"%string) in
  super_doesActionApply vimState keysPressed
  && ((isZero && (0 <? count (recordedState vimState))) || negb isZero).

Definition couldActionApply (vimState : VimState)
    (keysPressed : list string) : bool :=
  let isZero := bool_decide (keysPressed !! 0%nat = Some "0"%string) in
  super_couldActionApply vimState keysPressed
  && ((isZero && (0 <? count (recordedState vimState))) || negb isZero).
End Applies.

(** A fresh instance for the given key. *)
Definition new (key : string) : BaseAction :=
  mkAction Tag.CommandNumber [key] false.

End CommandNumber.

(** *** The dispatcher around the number action *)

Module ModeHandler.

(** Modelled from the spec: the dispatcher is not among the sources.  A
    resolved action joins [actionsRun] before it executes (thus
    [CommandNumber.exec] finds its predecessor at [length - 2]), and an
    operator stores the count entered so far in [operatorCount] (the
    comment in [CommandNumber.exec]: after 'd' the count (2) is stored in
    'operatorCount'). *)
Definition appendAction (a : BaseAction) (vimState : VimState) : VimState :=
  let rs := recordedState vimState in
  with_recordedState (with_actionsRun (actionsRun rs ++ [a]) rs) vimState.

Definition runNumber (key : string) (vimState : VimState)
  : option VimState :=
  let a := CommandNumber.new key in
  CommandNumber.exec a (appendAction a vimState).

Definition runOperator (key : string) (vimState : VimState)
  : option VimState :=
  let a := mkAction (Tag.BaseOperator key) [key] true in
  let vimState := appendAction a vimState in
  let rs := recordedState vimState in
  Some (with_recordedState (with_operatorCount (count rs) rs) vimState).

(** One key of a count/operator sequence: digits run the number action,
    anything else is taken as an operator key. *)
Definition handleKey (key : string) (vimState : VimState)
  : option VimState :=
  match parseInt (Some key) with
  | Some _ => runNumber key vimState
  | None => runOperator key vimState
  end.

Fixpoint handleKeys (keys : list string) (vimState : VimState)
  : option VimState :=
  match keys with
  | [] => Some vimState
  | key :: keys' =>
      vimState ← handleKey key vimState; handleKeys keys' vimState
  end.

(** Modelled from the spec: the Key Pattern Matcher is not among the
    sources.  Among the catalog entries that share a key sequence, the
    applicability predicates are evaluated in registration order and the
    first satisfied entry is taken. *)
Fixpoint resolve
    (catalog : list (ActionClass * (VimState -> list string -> bool)))
    (vimState : VimState) (keysPressed : list string)
  : option ActionClass :=
  match catalog with
  | [] => None
  | (a, applies) :: catalog' =>
      if applies vimState keysPressed then Some a
      else resolve catalog' vimState keysPressed
  end.

End ModeHandler.

(** *** Registers *)

Inductive RegisterMode := CharacterWise | LineWise | BlockWise.

(** Modelled from the spec: the [Register] class is imported from
    [./../register/register], which is not among the sources.  The spec
    describes a process-wide table keyed by register name whose content is
    either text with a wise-mode tag or a recorded command sequence, written
    last-writer-wins; [put] writes the register named by the pending
    command's [registerName]. *)
Inductive RegisterContent :=
| TextContent (text : string) (mode : RegisterMode)
| MacroContent (recorded : RecordedState).

Module Register.

Abbreviation table := (gmap string RegisterContent).

Definition has (register : string) (registers : table) : bool :=
  bool_decide (is_Some (registers !! register)).

Definition get (register : string) (registers : table)
  : option RegisterContent :=
  registers !! register.

Definition put (vimState : VimState) (content : RegisterContent)
    (registers : table) : table :=
  <[registerName (recordedState vimState) := content]> registers.

End Register.

(** *** [CommandRegister] *)

Module CommandRegister.
Section Exec.
(** [Register.isValidRegister], the membership test of the register
    alphabet. *)
Variable isValidRegister : string -> bool.

(** [exec] updates the pending command or, for a key outside the
    alphabet, the action's own [isCompleteAction].  [None] is the
    [TypeError] of testing an [undefined] key, which the two-key
    pattern rules out. *)
Definition exec (this : BaseAction) (vimState : VimState)
  : option (BaseAction * VimState) :=
  register ← keysPressed this !! 1%nat;
  if isValidRegister register then
    Some (this,
          with_recordedState
            (with_registerName register (recordedState vimState))
            vimState)
  else
    Some (mkAction (actionClass this) (keysPressed this) true, vimState).
End Exec.

(** A fresh instance, as the class declares it: [isCompleteAction =
    false]. *)
Definition new (keysPressed : list string) : BaseAction :=
  mkAction Tag.CommandRegister keysPressed false.

End CommandRegister.

(** *** [CommandRecordMacro] and [CommandQuitRecordMacro] *)

Module CommandRecordMacro.

Definition exec (this : BaseAction)
    (vimState : VimState) (registers : Register.table)
  : option (VimState * Register.table) :=
  registerKey ← keysPressed this !! 1%nat;
  let register := toLocaleLowerCase registerKey in
  let vimState :=
    with_macro (Some (with_registerName register new_RecordedState))
      vimState in
  if negb (test_upper registerKey) || negb (Register.has register registers)
  then
    let newRegister := with_registerName register new_RecordedState in
    let vimState :=
      with_recordedState
        (with_registerName register (recordedState vimState)) vimState in
    Some (vimState,
          Register.put vimState (MacroContent newRegister) registers)
  else Some (vimState, registers).

Definition new (registerKey : string) : BaseAction :=
  mkAction Tag.CommandRecordMacro ["q"%string; registerKey] true.

End CommandRecordMacro.

Module CommandQuitRecordMacro.

(** [exec]; [None] is the [TypeError] of reading [registerName] off an
    [undefined] macro, which [doesActionApply] rules out.  The register
    holds the recorded state by reference, so assigning its [actionsRun]
    rewrites the table entry. *)
Definition exec (vimState : VimState) (registers : Register.table)
  : option (VimState * Register.table) :=
  macro ← macro vimState;
  let registers :=
    match Register.get (registerName macro) registers with
    | Some (MacroContent existingMacro) =>
        <[registerName macro :=
            MacroContent
              (with_actionsRun
                 (actionsRun existingMacro ++ actionsRun macro)
                 existingMacro)]> registers
    | _ => registers
    end in
  Some (with_macro None vimState, registers).

Section Applies.
Variable super_doesActionApply : VimState -> list string -> bool.

Definition doesActionApply (vimState : VimState)
    (keysPressed : list string) : bool :=
  super_doesActionApply vimState keysPressed
  && bool_decide (macro vimState <> None).
End Applies.

End CommandQuitRecordMacro.

(** Modelled from the spec: the recorder is not among the sources.  While a
    macro is being recorded every resolved action is appended to it
    ([appendToMacro(action)]). *)
Definition appendToMacro (a : BaseAction) (vimState : VimState) : VimState :=
  match macro vimState with
  | Some m =>
      with_macro (Some (with_actionsRun (actionsRun m ++ [a]) m)) vimState
  | None => vimState
  end.

(** *** [SneakHighlighter], both versions *)

(** Modelled from the spec: [MarkerGenerator] and its markers are imported
    from [./easymotion/markerGenerator], which is not among the sources; a
    marker carries the label it is looked up by. *)
Record Marker := mkMarker { name : string; position : Position }.

(** The interface of a [MarkerGenerator] object with private state [G]:
    [new MarkerGenerator(matchesCount, labelTargets)] and
    [generateMarker(index, position, markerPosition)], which returns a marker
    or [null] ([None]) and the object after the call. *)
Record MarkerGenerator (G : Type) := mkMarkerGenerator {
  new_MarkerGenerator : Z -> string -> G;
  generateMarker : G -> Z -> Position -> bool -> option Marker * G
}.
Arguments new_MarkerGenerator {G}.
Arguments generateMarker {G}.

(** The version whose decoration methods read the active editor from
    [vscode.window]. *)
Module SneakHighlighterV1.

(** The receiver: the ranges [this.sneak.getRangesToHighlight()] returns
    and the private [markers] map. *)
Record t := mk {
  rangesToHighlight : list vscode.Range;
  markers : JsMap.t vscode.Range
}.

Section Markers.
Context {G : Type}.
Variable MG : MarkerGenerator G.
Variable sneakLabelTargets : string.

(** The [for (const range of ...)] loop with its [index] counter; a
    [null] marker breaks out of it. *)
Fixpoint generateMarkers_loop (markerGenerator : G)
    (ranges : list vscode.Range) (index : Z)
    (markers : JsMap.t vscode.Range) : JsMap.t vscode.Range :=
  match ranges with
  | [] => markers
  | range :: ranges' =>
      match generateMarker MG markerGenerator index
              (vscode.mkPosition
                 (vscode.line (vscode.start range))
                 (vscode.character (vscode.start range)))
              false with
      | (Some marker, markerGenerator) =>
          generateMarkers_loop markerGenerator ranges' (index + 1)
            (JsMap.set (name marker)
               (vscode.mkRange (vscode.start range) (vscode.start range))
               markers)
      | (None, _) => markers
      end
  end.

Definition generateMarkers (this : t) : t :=
  let markerGenerator :=
    new_MarkerGenerator MG
      (Z.of_nat (length (rangesToHighlight this))) sneakLabelTargets in
  mk (rangesToHighlight this)
     (generateMarkers_loop markerGenerator
        (rangesToHighlight this) 0 (markers this)).
End Markers.

Definition getMarkPosition (marker : string) (this : t) : option Position :=
  match JsMap.get marker (markers this) with
  | None => None
  | Some markerRange =>
      Some (vscode.mkPosition
              (vscode.line (vscode.start markerRange))
              (vscode.character (vscode.start markerRange)))
  end.

End SneakHighlighterV1.

(** The version whose decoration methods take the editor as a parameter. *)
Module SneakHighlighterV2.

Record t := mk {
  rangesToHighlight : list vscode.Range;
  markers : JsMap.t vscode.Range
}.

Section Markers.
Context {G : Type}.
Variable MG : MarkerGenerator G.
Variable sneakLabelTargets : string.

Fixpoint generateMarkers_loop (markerGenerator : G)
    (ranges : list vscode.Range) (index : Z)
    (markers : JsMap.t vscode.Range) : JsMap.t vscode.Range :=
  match ranges with
  | [] => markers
  | range :: ranges' =>
      match generateMarker MG markerGenerator index
              (vscode.mkPosition
                 (vscode.line (vscode.start range))
                 (vscode.character (vscode.start range)))
              false with
      | (Some marker, markerGenerator) =>
          generateMarkers_loop markerGenerator ranges' (index + 1)
            (JsMap.set (name marker)
               (vscode.mkRange (vscode.start range) (vscode.start range))
               markers)
      | (None, _) => markers
      end
  end.

Definition generateMarkers (this : t) : t :=
  let markerGenerator :=
    new_MarkerGenerator MG
      (Z.of_nat (length (rangesToHighlight this))) sneakLabelTargets in
  mk (rangesToHighlight this)
     (generateMarkers_loop markerGenerator
        (rangesToHighlight this) 0 (markers this)).
End Markers.

Definition getMarkPosition (marker : string) (this : t) : option Position :=
  match JsMap.get marker (markers this) with
  | None => None
  | Some markerRange =>
      Some (vscode.mkPosition
              (vscode.line (vscode.start markerRange))
              (vscode.character (vscode.start markerRange)))
  end.

End SneakHighlighterV2.

(** *** The cursor setter's deduplication, in the specification's words *)

(** Every cursor is kept where it is first seen; later structurally equal
    cursors are dropped. *)
Fixpoint dedupFirstSeen (l : list Cursor) : list Cursor :=
  match l with
  | [] => []
  | c :: l' => c :: filter (λ x, x ≠ c) (dedupFirstSeen l')
  end.

(** *** Instances for the examples *)

Module Sample.

(** A two-line document. *)
Definition editor : vscode.TextEditor :=
  vscode.mkTextEditor ["hello world"%string; "second line"%string].

(** A validity test for positions: on a line of the document and at most
    at that line's end. *)
Definition Position_isValid (p : Position) (ed : vscode.TextEditor)
  : bool :=
  let l :=
    if vscode.line p <? 0 then None
    else vscode.document ed !! Z.to_nat (vscode.line p) in
  match l with
  | Some l => (0 <=? vscode.character p) && (vscode.character p <=? js_length l)
  | None => false
  end.

Definition Cursor_isValid (c : Cursor) (ed : vscode.TextEditor) : bool :=
  Position_isValid (start c) ed && Position_isValid (stop c) ed.

(** A rendering of cursors that shows both coordinates of both ends, as
    in [[0, 4] | [2, 7]]. *)
Definition Cursor_toString (c : Cursor) : string :=
  "[[" +:+ pretty (vscode.line (start c)) +:+ ", "
       +:+ pretty (vscode.character (start c)) +:+ "] | ["
       +:+ pretty (vscode.line (stop c)) +:+ ", "
       +:+ pretty (vscode.character (stop c)) +:+ "]]".

(** Strings made of decimal digits and minus signs only. *)
Fixpoint numeric (s : string) : bool :=
  match s with
  | EmptyString => true
  | String c s' => (is_digit c || bool_decide (c = "-"%char)) && numeric s'
  end.

Definition is_letter (c : ascii) : bool :=
  let n := nat_of_ascii c in
  (((65 <=? n) && (n <=? 90)) || ((97 <=? n) && (n <=? 122)))%nat.

(** Modelled from the spec: [Register.isValidRegister] is not among the
    sources.  The spec keys registers by a restricted alphabet and names
    letters, digits, the double quote and [#]; this instance accepts
    exactly those single characters. *)
Definition isValidRegister (register : string) : bool :=
  match register with
  | String c EmptyString =>
      is_letter c || is_digit c
      || bool_decide (c = ascii_of_nat 34) || bool_decide (c = "#"%char)
  | _ => false
  end.

(** A stateless marker generator that labels the match at [index] with
    the [index]-th character of the label targets and gives up when they
    run out. *)
Definition markerGenerator : MarkerGenerator string :=
  mkMarkerGenerator string
    (λ _ labelTargets, labelTargets)
    (λ labelTargets index position _,
       (if index <? 0 then None
        else c ← String.get (Z.to_nat index) labelTargets;
             Some (mkMarker (String c EmptyString) position),
        labelTargets)).

Definition position (l c : Z) : Position := vscode.mkPosition l c.

Definition caret (l c : Z) : Cursor := mkCursor (position l c) (position l c).

(** The empty range at a position, as an insertion reports it. *)
Definition emptyRange (l c : Z) : vscode.Range :=
  vscode.mkRange (position l c) (position l c).

End Sample.

(** *** Key sequences used in the statements *)

(** The key token of the decimal digit [d]. *)
Definition digitKey (d : Z) : string :=
  String (ascii_of_nat (48 + Z.to_nat d)) EmptyString.

(** The register-selection key, a double quote. *)
Definition quoteKey : string := String (ascii_of_nat 34) EmptyString.

(** The actions resolved while a macro is being recorded, in order. *)
Definition recordActions (actions : list BaseAction) (vimState : VimState)
  : VimState :=
  foldl (λ vimState a, appendToMacro a vimState) vimState actions.

(** A whole recording: [q], the register key, the recorded actions, [q]. *)
Definition recordMacro (registerKey : string) (actions : list BaseAction)
    (vimState : VimState) (registers : Register.table)
  : option (VimState * Register.table) :=
  '(vimState, registers) ←
    CommandRecordMacro.exec (CommandRecordMacro.new registerKey)
      vimState registers;
  CommandQuitRecordMacro.exec (recordActions actions vimState) registers.

(** *** Cursor getters *)

(** [get cursorStartPosition()] and [get cursorStopPosition()]; [None] is
    the [TypeError] of reading off an empty array. *)
Definition get_cursorStartPosition (this : VimState) : option Position :=
  start <$> cursors this !! 0%nat.

Definition get_cursorStopPosition (this : VimState) : option Position :=
  stop <$> cursors this !! 0%nat.

(** *** [ActionDeleteCharWithDeleteKey] *)

Module ActionDeleteCharWithDeleteKey.

(** [n.toString().split('')] for a count [n] within the safe integers:
    the decimal digits of [n], one key each.  (A larger number prints as
    the shortest digits that read back as the same double, in exponent
    form from [1e21]; the statements below keep the count within
    [MAX_SAFE_INTEGER].) *)
Definition toString_split (n : Z) : list string :=
  (λ c, String c EmptyString) <$> list_ascii_of_string (pretty n).

Section ExecCount.

(** [new ActionDeleteChar().execCount(position, vimState)], left open. *)
Variable ActionDeleteChar_execCount : VimState -> VimState.

(** [execCount], threading the receiver, the state and the pending
    command's [actionsRunPressedKeys].  [Math.floor(count / 10)] is the
    integer quotient for a count within the safe integers: the double
    nearest to [count / 10] lies strictly below the next integer there. *)
Definition execCount (this : BaseAction) (vimState : VimState)
    (actionsRunPressedKeys : list string)
  : BaseAction * VimState * list string :=
  let rs := recordedState vimState in
  if negb (count rs =? 0) then
    let rs := with_count (count rs / 10) rs in
    let actionsRunPressedKeys :=
      if 0 <? count rs then toString_split (count rs) else [] in
    (mkAction (actionClass this) (keysPressed this) false,
     with_recordedState rs vimState, actionsRunPressedKeys)
  else (this, ActionDeleteChar_execCount vimState, actionsRunPressedKeys).

End ExecCount.

End ActionDeleteCharWithDeleteKey.

(** *** [CommandInsertAtCursor] and [CommandInsertAfterCursor] *)

Module CommandInsertAtCursor.

(** The [for (const prevAction of ...)] loop, from
    [previousActionsNumbers = true]. *)
Fixpoint previousActionsNumbers (actions : list BaseAction) : bool :=
  match actions with
  | [] => true
  | prevAction :: actions' =>
      if negb (instanceof (Some prevAction) Tag.CommandNumber) then false
      else previousActionsNumbers actions'
  end.

Section Applies.
Variable super_couldActionApply : VimState -> list string -> bool.

Definition doesActionApply (vimState : VimState) (keysPressed : list string)
  : bool :=
  let actions := actionsRun (recordedState vimState) in
  if bool_decide (length actions = 0%nat) || previousActionsNumbers actions
  then super_couldActionApply vimState keysPressed
  else false.
End Applies.

End CommandInsertAtCursor.

Module CommandInsertAfterCursor.
Section Applies.
Variable super_couldActionApply : VimState -> list string -> bool.

Definition doesActionApply (vimState : VimState) (keysPressed : list string)
  : bool :=
  if negb (forallb (λ action, instanceof (Some action) Tag.CommandNumber)
             (actionsRun (recordedState vimState)))
  then false
  else super_couldActionApply vimState keysPressed.
End Applies.
End CommandInsertAfterCursor.

(** *** [CommandExecuteMacro] and [CommandExecuteLastMacro] *)

(** What [StatusBar.displayError] is called with. *)
Inductive VimError :=
| InvalidRegisterName (register : string).

Module CommandExecuteMacro.
Section Exec.
Variable isValidRegister : string -> bool.

(** [exec], returning the errors it displays and the transformations it
    adds; [None] is the [TypeError] of lower-casing an [undefined] key,
    which the two-key pattern rules out. *)
Definition exec (this : BaseAction) (registers : Register.table)
  : option (list VimError * list Transformation) :=
  key ← keysPressed this !! 1%nat;
  let register := toLocaleLowerCase key in
  let errors :=
    if negb (isValidRegister register) then [InvalidRegisterName register]
    else [] in
  let added :=
    if Register.has register registers
    then [MacroReplay register "contentChange"]
    else [] in
  Some (errors, added).
End Exec.

Definition new (registerKey : string) : BaseAction :=
  mkAction (Tag.OtherAction "@") ["@"%string; registerKey] true.

End CommandExecuteMacro.

Module CommandExecuteLastMacro.

(** [exec] over [vimState.lastInvokedMacro], returning the
    transformations it adds. *)
Definition exec (lastInvokedMacro : option RecordedState)
  : list Transformation :=
  match lastInvokedMacro with
  | Some m => [MacroReplay (registerName m) "contentChange"]
  | None => []
  end.

End CommandExecuteLastMacro.

(** *** [ActionJoin] and [ActionJoinNoWhitespace] *)

Module ActionJoin.

(** The loop of [firstNonWhitespaceIndex] from index [i]. *)
Fixpoint firstNonWhitespaceIndex_from (str : string) (i : Z) : Z :=
  match str with
  | EmptyString => -1
  | String ch str' =>
      if negb (nat_of_ascii ch =? 32)%nat && negb (nat_of_ascii ch =? 9)%nat
      then i
      else firstNonWhitespaceIndex_from str' (i + 1)
  end.

Definition firstNonWhitespaceIndex (str : string) : Z :=
  firstNonWhitespaceIndex_from str 0.

(** [s.endsWith(suffix)]. *)
Definition endsWith (s suffix : string) : bool :=
  (String.length suffix <=? String.length s)%nat
  && bool_decide
       (substring (String.length s - String.length suffix)
          (String.length suffix) s = suffix).

(** [count = count - 1 || 1], the first statement of [execJoinLines]. *)
Definition joinCount (count : Z) : Z :=
  if js_sub count 1 =? 0 then 1 else js_sub count 1.

(** The body of the loop of [execJoinLines] for one line text: the joined
    content so far and [columnDeltaOffset] before and after. *)
Definition joinLine (joinspaces : bool) (lineText : string)
    (state : string * Z) : string * Z :=
  let '(trimmedLinesContent, columnDeltaOffset) := state in
  let firstNonWhitespaceIdx := firstNonWhitespaceIndex lineText in
  if 0 <=? firstNonWhitespaceIdx then
    let insertSpace :=
      if bool_decide (trimmedLinesContent = EmptyString)
         || endsWith trimmedLinesContent (String (ascii_of_nat 9) EmptyString)
      then EmptyString
      else if joinspaces
              && (endsWith trimmedLinesContent "."
                  || endsWith trimmedLinesContent "!"
                  || endsWith trimmedLinesContent "?")
      then "  "%string
      else if joinspaces
              && (endsWith trimmedLinesContent ". "
                  || endsWith trimmedLinesContent "! "
                  || endsWith trimmedLinesContent "? ")
      then " "%string
      else if endsWith trimmedLinesContent " " then EmptyString
      else " "%string in
    let lineTextWithoutIndent := js_slice_from lineText firstNonWhitespaceIdx in
    let insertSpace :=
      if bool_decide (String.get 0 lineTextWithoutIndent = Some ")"%char)
      then EmptyString else insertSpace in
    (trimmedLinesContent +:+ insertSpace +:+ lineTextWithoutIndent,
     js_length lineTextWithoutIndent + js_length insertSpace)
  else state.

(** The loop over the texts of the lines after the start line, in order. *)
Definition joinLines (joinspaces : bool) (lineTexts : list string)
    (startLineText : string) : string * Z :=
  foldl (λ state lineText, joinLine joinspaces lineText state)
    (startLineText, 0) lineTexts.

End ActionJoin.

Module ActionJoinNoWhitespace.

(** The count [exec] passes to [execJoin]. *)
Definition joinCount (count : Z) : Z :=
  if 2 <? count then js_sub count 1 else 1.

End ActionJoinNoWhitespace.

(** [count || 1], as the actions read the pending count. *)
Definition countOrOne (count : Z) : Z := if count =? 0 then 1 else count.

(** *** [ToggleCaseAndMoveForward] *)

Module ToggleCaseAndMoveForward.

Definition is_lower (c : ascii) : bool :=
  ((97 <=? nat_of_ascii c) && (nat_of_ascii c <=? 122))%nat.

(** [char.toLocaleUpperCase()] on an ASCII character. *)
Definition upper_ascii (c : ascii) : ascii :=
  if is_lower c then ascii_of_nat (nat_of_ascii c - 32) else c.

(** [toggleCase(text)], on ASCII text. *)
Fixpoint toggleCase (text : string) : string :=
  match text with
  | EmptyString => EmptyString
  | String char text' =>
      let toggled := lower_ascii char in
      let toggled :=
        if bool_decide (toggled = char) then upper_ascii char else toggled in
      String toggled (toggleCase text')
  end.

(** Text whose characters are all ASCII. *)
Fixpoint is_ascii_text (text : string) : bool :=
  match text with
  | EmptyString => true
  | String c text' => (nat_of_ascii c <? 128)%nat && is_ascii_text text'
  end.

End ToggleCaseAndMoveForward.

(** *** Key sequences over registers *)



(** *** Compressed form *)

(** A list of changes no two neighbours of which [merge] would combine. *)
Fixpoint unmergeable (changes : list vscode.TextDocumentContentChangeEvent)
  : Prop :=
  match changes with
  | first :: (second :: _) as changes' =>
      DocumentContentChangeAction.merge first second = None
      ∧ unmergeable changes'
  | _ => True
  end.

(** The part of a change that compression never rewrites. *)
Definition replaced (change : vscode.TextDocumentContentChangeEvent)
  : vscode.Range * Z * Z :=
  (vscode.range change, vscode.rangeOffset change, vscode.rangeLength change).

(** *** Blank lines *)

(** A space or a tab. *)
Definition is_blank (c : ascii) : bool :=
  (nat_of_ascii c =? 32)%nat || (nat_of_ascii c =? 9)%nat.

(** A line of spaces and tabs only, the empty line included. *)
Fixpoint blank (s : string) : bool :=
  match s with
  | EmptyString => true
  | String c s' => is_blank c && blank s'
  end.

(** *** An instance of [laterOf] for the examples *)

(** The later of two positions, the first when they are equal. *)
Definition laterOfTwo (a b : Position) : Position :=
  if PositionApi.isBefore a b then b else a.

(** ** Part II: properties *)

(** *** JavaScript maps *)

Section JsMapFacts.
Context {V : Type}.
Implicit Types (m : JsMap.t V) (k : string) (v : V).

Lemma JsMap_set_not_nil k v m : JsMap.set k v m ≠ [].
Proof. destruct m as [|[k' v'] m]; simpl; [done|]. by case_decide. Qed.

Lemma JsMap_set_length k v m : (length m ≤ length (JsMap.set k v m))%nat.
Proof.
  induction m as [|[k' v'] m IH]; simpl; [lia|].
  case_decide; simpl; lia.
Qed.

Lemma JsMap_get_set_eq k v m : JsMap.get k (JsMap.set k v m) = Some v.
Proof.
  induction m as [|[k' v'] m IH]; simpl.
  - by rewrite decide_True.
  - destruct (decide (k' = k)) as [->|Hk]; simpl.
    + by rewrite decide_True.
    + by rewrite decide_False.
Qed.

Lemma JsMap_get_set_ne k k' v m :
  k ≠ k' → JsMap.get k' (JsMap.set k v m) = JsMap.get k' m.
Proof.
  intros Hne. induction m as [|[k0 v0] m IH]; simpl.
  - by rewrite decide_False.
  - destruct (decide (k0 = k)) as [->|]; simpl.
    + by rewrite !decide_False.
    + case_decide; [done|apply IH].
Qed.
End JsMapFacts.

(** *** The cursor set *)

Section CursorFacts.
Variable Position_isValid : Position -> vscode.TextEditor -> bool.
Variable Cursor_isValid : Cursor -> vscode.TextEditor -> bool.
Variable Cursor_toString : Cursor -> string.

Local Abbreviation set_cursors_loop :=
  (set_cursors_loop Cursor_isValid Cursor_toString).
Local Abbreviation set_cursors := (set_cursors Cursor_isValid Cursor_toString).
Local Abbreviation warnings := (invalidCursorWarnings Cursor_isValid).

Lemma warn_fields w this :
  editor (warn w this) = editor this
  ∧ _cursors (warn w this) = _cursors this
  ∧ recordedState (warn w this) = recordedState this
  ∧ macro (warn w this) = macro this.
Proof. done. Qed.

(** The loop only appends to the log and leaves the rest of the receiver
    alone. *)
Lemma set_cursors_loop_this value map this :
  let this' := (set_cursors_loop value map this).2 in
  editor this' = editor this
  ∧ _cursors this' = _cursors this
  ∧ recordedState this' = recordedState this
  ∧ macro this' = macro this
  ∧ logger this' = logger this ++ warnings (editor this) value.
Proof.
  unfold invalidCursorWarnings.
  revert map this. induction value as [|c value IH]; intros map this; simpl.
  - by rewrite app_nil_r.
  - destruct (Cursor_isValid c (editor this)) eqn:Hv; simpl.
    + rewrite filter_cons_False by (rewrite Hv; done). apply IH.
    + rewrite filter_cons_True by done.
      destruct (IH (JsMap.set (Cursor_toString c) c map)
                   (warn (InvalidCursorPosition c) this))
        as (He & Hc & Hr & Hm & Hl).
      rewrite He, Hc, Hr, Hm, Hl. simpl.
      by rewrite <- app_assoc.
Qed.

(** The map the loop builds does not depend on the receiver or on which
    cursors are valid. *)
Lemma set_cursors_loop_map value map this :
  (set_cursors_loop value map this).1
  = foldl (λ m c, JsMap.set (Cursor_toString c) c m) map value.
Proof.
  revert map this. induction value as [|c value IH]; intros map this;
    simpl; [done|apply IH].
Qed.

Lemma set_cursors_loop_length value map this :
  (length map ≤ length (set_cursors_loop value map this).1)%nat.
Proof.
  revert map this. induction value as [|c value IH]; intros map this;
    simpl; [lia|].
  etrans; [apply (JsMap_set_length (Cursor_toString c) c)|apply IH].
Qed.

Lemma set_cursors_loop_not_nil c value map this :
  (set_cursors_loop (c :: value) map this).1 ≠ [].
Proof.
  simpl. intros Hnil.
  pose proof (set_cursors_loop_length value
                (JsMap.set (Cursor_toString c) c map)
                (if negb (Cursor_isValid c (editor this))
                 then warn (InvalidCursorPosition c) this else this)) as Hl.
  rewrite Hnil in Hl. simpl in Hl.
  pose proof (JsMap_set_not_nil (Cursor_toString c) c map) as Hs.
  destruct (JsMap.set (Cursor_toString c) c map); [done|simpl in Hl; lia].
Qed.

Lemma set_cursors_nil this :
  set_cursors [] this = warn TriedToSetCursorsToEmpty this.
Proof. done. Qed.

Lemma set_cursors_cons c value this :
  set_cursors (c :: value) this
  = with_cursors
      (JsMap.values (set_cursors_loop (c :: value) JsMap.empty this).1)
      (set_cursors_loop (c :: value) JsMap.empty this).2.
Proof.
  unfold set_cursors. rewrite decide_False by done.
  by destruct (set_cursors_loop (c :: value) JsMap.empty this).
Qed.

Lemma set_cursors_not_nil value this :
  _cursors this ≠ [] → _cursors (set_cursors value this) ≠ [].
Proof.
  intros Hne. destruct value as [|c value].
  - by rewrite set_cursors_nil.
  - rewrite set_cursors_cons. simpl. unfold JsMap.values.
    pose proof (set_cursors_loop_not_nil c value JsMap.empty this) as Hm.
    intros Hnil. apply fmap_nil_inv in Hnil. done.
Qed.

Local Abbreviation reachable :=
  (reachable Position_isValid Cursor_isValid Cursor_toString).

Lemma reachable_cursors_not_nil this :
  reachable this → _cursors this ≠ [].
Proof.
  induction 1 as [ed|value this _ IH|value this this' _ IH Hset
                 |value this this' _ IH Hset|c this _ IH].
  - done.
  - by apply set_cursors_not_nil.
  - unfold set_cursorStartPosition in Hset.
    destruct (negb _) in Hset; unfold cursors in Hset; simpl in Hset;
      destruct (_cursors this) as [|c0 cs]; simplify_eq/=; done.
  - unfold set_cursorStopPosition in Hset.
    destruct (negb _) in Hset; unfold cursors in Hset; simpl in Hset;
      destruct (_cursors this) as [|c0 cs]; simplify_eq/=; done.
  - simpl. unfold cursors. by destruct (_cursors this).
Qed.

(** **** Deduplication *)

Lemma filter_not_elem_of_snoc (S l : list Cursor) c :
  filter (λ x, x ∉ S ++ [c]) l
  = filter (λ x, x ∉ S) (filter (λ x, x ≠ c) l).
Proof.
  induction l as [|y l IH]; [done|].
  destruct (decide (y = c)) as [->|Hy].
  - rewrite filter_cons_False by set_solver.
    rewrite (filter_cons_False (λ x, x ≠ c)) by (intros ?; done).
    done.
  - rewrite (filter_cons_True (λ x, x ≠ c)) by done.
    destruct (decide (y ∈ S)).
    + rewrite !filter_cons_False by set_solver. done.
    + rewrite filter_cons_True
        by (rewrite elem_of_app, list_elem_of_singleton; tauto).
      rewrite filter_cons_True by done. by rewrite IH.
Qed.

Lemma filter_not_elem_of_absorb (S l : list Cursor) c :
  c ∈ S →
  filter (λ x, x ∉ S) (filter (λ x, x ≠ c) l) = filter (λ x, x ∉ S) l.
Proof.
  intros Hc. induction l as [|y l IH]; [done|].
  destruct (decide (y = c)) as [->|Hy].
  - rewrite (filter_cons_False (λ x, x ≠ c)) by (intros ?; done).
    rewrite filter_cons_False by (intros ?; done). done.
  - rewrite (filter_cons_True (λ x, x ≠ c)) by done.
    destruct (decide (y ∈ S)).
    + rewrite !filter_cons_False by (intros ?; done). done.
    + rewrite !filter_cons_True by done. by rewrite IH.
Qed.

Lemma filter_not_elem_of_nil (l : list Cursor) :
  filter (λ x, x ∉ @nil Cursor) l = l.
Proof.
  induction l as [|y l IH]; [done|].
  rewrite filter_cons_True by set_solver. by rewrite IH.
Qed.

Lemma dedupFirstSeen_elem_of l c : c ∈ dedupFirstSeen l ↔ c ∈ l.
Proof.
  induction l as [|y l IH]; simpl; [done|].
  rewrite !elem_of_cons, list_elem_of_filter, IH.
  destruct (decide (c = y)); tauto.
Qed.

Lemma dedupFirstSeen_NoDup l : NoDup (dedupFirstSeen l).
Proof.
  induction l as [|y l IH]; simpl; [constructor|].
  constructor.
  - rewrite list_elem_of_filter. intros [Hne _]. by apply Hne.
  - by apply NoDup_filter.
Qed.

Section Injective.
Hypothesis toString_inj : Inj (=) (=) Cursor_toString.

Local Abbreviation keyed m :=
  (Forall (λ kv : string * Cursor, kv.1 = Cursor_toString kv.2) m).

Lemma JsMap_set_seen (m : JsMap.t Cursor) c :
  keyed m → c ∈ JsMap.values m →
  JsMap.set (Cursor_toString c) c m = m.
Proof.
  unfold JsMap.values.
  induction m as [|[k v] m IH]; intros Hk Hin; simpl in *.
  - by apply elem_of_nil in Hin.
  - apply Forall_cons in Hk as [Hkv Hk]. simpl in Hkv. subst k.
    case_decide as Heq.
    + apply toString_inj in Heq. by subst.
    + f_equal. apply IH; [done|].
      apply elem_of_cons in Hin as [->|Hin]; done.
Qed.

Lemma JsMap_set_unseen (m : JsMap.t Cursor) c :
  keyed m → c ∉ JsMap.values m →
  JsMap.set (Cursor_toString c) c m = m ++ [(Cursor_toString c, c)].
Proof.
  unfold JsMap.values.
  induction m as [|[k v] m IH]; intros Hk Hin; simpl in *; [done|].
  apply Forall_cons in Hk as [Hkv Hk]. simpl in Hkv. subst k.
  apply not_elem_of_cons in Hin as [Hne Hin].
  case_decide as Heq.
  - apply toString_inj in Heq. by subst.
  - f_equal. by apply IH.
Qed.

Lemma set_cursors_loop_values value (m : JsMap.t Cursor) this :
  keyed m →
  JsMap.values (set_cursors_loop value m this).1
  = JsMap.values m
    ++ filter (λ x, x ∉ JsMap.values m) (dedupFirstSeen value).
Proof.
  revert m this. induction value as [|c value IH]; intros m this Hk.
  - simpl. by rewrite app_nil_r.
  - simpl.
    destruct (decide (c ∈ JsMap.values m)) as [Hin|Hin].
    + rewrite JsMap_set_seen by done.
      rewrite IH by done.
      rewrite filter_cons_False by (intros ?; done).
      by rewrite filter_not_elem_of_absorb.
    + rewrite JsMap_set_unseen by done.
      rewrite IH.
      * rewrite filter_cons_True by done.
        unfold JsMap.values. rewrite fmap_app. simpl.
        rewrite <- app_assoc. simpl.
        by rewrite filter_not_elem_of_snoc.
      * apply Forall_app. split; [done|]. by repeat constructor.
Qed.

Lemma set_cursors_dedup value this :
  value ≠ [] → _cursors (set_cursors value this) = dedupFirstSeen value.
Proof.
  destruct value as [|c value]; [done|]. intros _.
  rewrite set_cursors_cons. cbn [_cursors with_cursors].
  rewrite set_cursors_loop_values by constructor.
  unfold JsMap.values, JsMap.empty. cbn [fmap list_fmap app].
  apply filter_not_elem_of_nil.
Qed.
End Injective.

(** **** The claims about the setters *)

Lemma set_cursorStopPosition_cons value this c0 cs :
  _cursors this = c0 :: cs →
  set_cursorStopPosition Position_isValid value this
  = Some (with_cursors (withNewStop c0 value :: cs)
            (if Position_isValid value (editor this) then this
             else warn (InvalidCursorStopPosition value) this)).
Proof.
  intros Hcs. unfold set_cursorStopPosition, cursors.
  destruct (Position_isValid value (editor this)); simpl; by rewrite Hcs.
Qed.

Lemma set_cursorStartPosition_cons value this c0 cs :
  _cursors this = c0 :: cs →
  set_cursorStartPosition Position_isValid value this
  = Some (with_cursors (withNewStart c0 value :: cs)
            (if Position_isValid value (editor this) then this
             else warn (InvalidCursorStartPosition value) this)).
Proof.
  intros Hcs. unfold set_cursorStartPosition, cursors.
  destruct (Position_isValid value (editor this)); simpl; by rewrite Hcs.
Qed.

Local Abbreviation set_cursorStartPosition :=
  (set_cursorStartPosition Position_isValid).
Local Abbreviation set_cursorStopPosition :=
  (set_cursorStopPosition Position_isValid).

(** C2, as amended.  Assigning an invalid position or a cursor list that
    holds an invalid cursor logs a warning and is carried out all the
    same: the first cursor gets the given start or stop, and the stored
    cursors become the assigned list, deduplicated, with the invalid
    cursor among them; nothing is thrown and the rest of the state is
    kept. *)
Theorem invalid_cursor_is_logged_and_stored :
  (∀ value this c0 cs,
      _cursors this = c0 :: cs →
      Position_isValid value (editor this) = false →
      set_cursorStopPosition value this
      = Some (with_cursors (withNewStop c0 value :: cs)
                (warn (InvalidCursorStopPosition value) this))
      ∧ set_cursorStartPosition value this
        = Some (with_cursors (withNewStart c0 value :: cs)
                  (warn (InvalidCursorStartPosition value) this)))
  ∧ (∀ value this c,
        Inj (=) (=) Cursor_toString →
        c ∈ value →
        Cursor_isValid c (editor this) = false →
        let this' := set_cursors value this in
        _cursors this' = dedupFirstSeen value
        ∧ c ∈ _cursors this'
        ∧ logger this' = logger this ++ warnings (editor this) value
        ∧ InvalidCursorPosition c ∈ logger this'
        ∧ editor this' = editor this
        ∧ recordedState this' = recordedState this
        ∧ macro this' = macro this).
Proof.
  split.
  - intros value this c0 cs Hcs Hinv.
    rewrite (set_cursorStopPosition_cons _ _ _ _ Hcs).
    rewrite (set_cursorStartPosition_cons _ _ _ _ Hcs).
    by rewrite Hinv.
  - intros value this c Hinj Hin Hinv this'.
    assert (Hne : value ≠ []) by (intros ->; by apply elem_of_nil in Hin).
    assert (Hc : _cursors this' = dedupFirstSeen value)
      by (by apply set_cursors_dedup).
    destruct value as [|c1 value]; [done|].
    pose proof (set_cursors_loop_this (c1 :: value) JsMap.empty this)
      as (He & _ & Hr & Hm & Hl).
    assert (Hlog : logger this'
                   = logger this ++ warnings (editor this) (c1 :: value)).
    { unfold this'. rewrite set_cursors_cons. exact Hl. }
    split; [done|]. split; [rewrite Hc; by apply dedupFirstSeen_elem_of|].
    split; [done|]. split.
    { rewrite Hlog. apply elem_of_app. right.
      unfold invalidCursorWarnings. apply list_elem_of_fmap_2.
      by apply list_elem_of_filter. }
    unfold this'. rewrite set_cursors_cons. done.
Qed.

(** C3.  Assigning an empty list keeps the stored cursors and logs the
    warning, and every state the cursor operations reach from a fresh
    [VimState] has at least one cursor. *)
Theorem cursors_never_empty :
  (∀ this,
      _cursors this ≠ [] →
      _cursors (set_cursors [] this) = _cursors this
      ∧ logger (set_cursors [] this)
        = logger this ++ [TriedToSetCursorsToEmpty])
  ∧ (∀ this, reachable this → _cursors this ≠ [] ∧ cursors this ≠ []).
Proof.
  split.
  - intros this _. by rewrite set_cursors_nil.
  - intros this Hr. split; by apply reachable_cursors_not_nil.
Qed.

(** C9.  A non-empty assigned list is stored with structurally equal
    cursors collapsed: each distinct cursor once, at the place it was
    first seen; assigning the same cursor twice stores one cursor. *)
Theorem set_cursors_deduplicates :
  (∀ value this,
      Inj (=) (=) Cursor_toString →
      value ≠ [] →
      _cursors (set_cursors value this) = dedupFirstSeen value
      ∧ NoDup (_cursors (set_cursors value this))
      ∧ (∀ c, c ∈ _cursors (set_cursors value this) ↔ c ∈ value))
  ∧ (∀ cursorA this,
        _cursors (set_cursors [cursorA; cursorA] this) = [cursorA]
        ∧ length (_cursors (set_cursors [cursorA; cursorA] this)) = 1%nat).
Proof.
  split.
  - intros value this Hinj Hne.
    rewrite set_cursors_dedup by done.
    split; [done|]. split; [apply dedupFirstSeen_NoDup|].
    intros c. apply dedupFirstSeen_elem_of.
  - intros cursorA this. rewrite set_cursors_cons. simpl.
    rewrite decide_True by done. done.
Qed.

End CursorFacts.

(** **** The sample rendering is injective *)

Lemma pretty_N_char_digit x : is_digit (pretty_N_char x) = true.
Proof.
  unfold pretty_N_char.
  repeat match goal with
         | |- context [match ?p with _ => _ end] => destruct p
         end; reflexivity.
Qed.

Lemma numeric_pretty_N_go x s :
  Sample.numeric s = true → Sample.numeric (pretty_N_go x s) = true.
Proof.
  revert s. induction (N.lt_wf_0 x) as [x _ IH]; intros s Hs.
  destruct (decide (x = 0%N)) as [->|Hx].
  - by rewrite pretty_N_go_0.
  - rewrite pretty_N_go_step by lia.
    apply IH.
    + apply N.div_lt; lia.
    + simpl. by rewrite pretty_N_char_digit, Hs.
Qed.

Lemma numeric_pretty_Z (z : Z) : Sample.numeric (pretty z) = true.
Proof.
  assert (HN : ∀ n : N, Sample.numeric (pretty n) = true).
  { intros n. unfold pretty, pretty_N. case_decide; [done|].
    by apply numeric_pretty_N_go. }
  destruct z as [|p|p]; unfold pretty, pretty_Z; [done|apply HN|].
  simpl. apply HN.
Qed.

(** Two renderings that agree up to and including a separator have the
    same number before it and the same remainder after it. *)
Lemma numeric_split a a' x r r' :
  Sample.numeric a = true → Sample.numeric a' = true →
  Sample.numeric (String x EmptyString) = false →
  a +:+ String x r = a' +:+ String x r' → a = a' ∧ r = r'.
Proof.
  intros Ha Ha' Hx. revert a' Ha'.
  induction a as [|c a IH]; intros [|c' a'] Ha' Heq; simpl in *.
  - by injection Heq as ->.
  - injection Heq as -> _. apply andb_prop in Ha' as [Hc _].
    rewrite Hc in Hx. done.
  - injection Heq as -> _. apply andb_prop in Ha as [Hc _].
    rewrite Hc in Hx. done.
  - injection Heq as -> Heq.
    apply andb_prop in Ha as [_ Ha]. apply andb_prop in Ha' as [_ Ha'].
    destruct (IH Ha a' Ha' Heq) as [-> ->]. done.
Qed.

Lemma Cursor_toString_inj : Inj (=) (=) Sample.Cursor_toString.
Proof.
  intros [[l1 c1] [l2 c2]] [[l1' c1'] [l2' c2']] Heq.
  unfold Sample.Cursor_toString in Heq. simpl in Heq.
  injection Heq as Heq.
  apply numeric_split in Heq as [H1 Heq]; try apply numeric_pretty_Z; [|done].
  injection Heq as Heq.
  apply numeric_split in Heq as [H2 Heq]; try apply numeric_pretty_Z; [|done].
  injection Heq as Heq.
  apply numeric_split in Heq as [H3 Heq]; try apply numeric_pretty_Z; [|done].
  injection Heq as Heq.
  apply numeric_split in Heq as [H4 Heq]; try apply numeric_pretty_Z; [|done].
  apply (inj pretty) in H1, H2, H3, H4. by subst.
Qed.

(** **** The setters on the sample editor *)

Example Cursor_toString_sample :
  Sample.Cursor_toString (mkCursor (Sample.position 0 4) (Sample.position 2 7))
  = "[[0, 4] | [2, 7]]"%string.
Proof. reflexivity. Qed.

(** C2 as stated fails: on the two-line sample document, line 7 is invalid,
    yet assigning [(7, 0)] as the stop position, or a cursor at [(7, 0)] as
    the cursor list, replaces the stored cursors. *)
Lemma invalid_assignment_replaces_cursors :
  let this := new_VimState Sample.editor in
  let value := Sample.position 7 0 in
  Sample.Position_isValid value (editor this) = false
  ∧ Sample.Cursor_isValid (Sample.caret 7 0) (editor this) = false
  ∧ _cursors
      <$> set_cursorStopPosition Sample.Position_isValid value this
    = Some [mkCursor (Sample.position 0 0) (Sample.position 7 0)]
  ∧ _cursors (set_cursors Sample.Cursor_isValid Sample.Cursor_toString
                [Sample.caret 7 0] this)
    = [Sample.caret 7 0]
  ∧ [mkCursor (Sample.position 0 0) (Sample.position 7 0)] ≠ _cursors this
  ∧ [Sample.caret 7 0] ≠ _cursors this.
Proof. repeat split; (reflexivity || discriminate). Qed.

Lemma invalid_cursor_is_logged_and_stored_witness :
  let this := new_VimState Sample.editor in
  (set_cursorStopPosition Sample.Position_isValid (Sample.position 7 0) this
   = Some (mkVimState Sample.editor
             [mkCursor (Sample.position 0 0) (Sample.position 7 0)]
             new_RecordedState None
             [InvalidCursorStopPosition (Sample.position 7 0)]))
  ∧ _cursors (set_cursors Sample.Cursor_isValid Sample.Cursor_toString
                [Sample.caret 0 1; Sample.caret 7 0; Sample.caret 0 1] this)
    = [Sample.caret 0 1; Sample.caret 7 0].
Proof.
  intros this. split.
  - refine (proj1 (proj1 (invalid_cursor_is_logged_and_stored
                     Sample.Position_isValid Sample.Cursor_isValid
                     Sample.Cursor_toString)
       (Sample.position 7 0) this (Sample.caret 0 0) [] _ _)); reflexivity.
  - refine (proj1 (proj2 (invalid_cursor_is_logged_and_stored
                     Sample.Position_isValid Sample.Cursor_isValid
                     Sample.Cursor_toString)
       [Sample.caret 0 1; Sample.caret 7 0; Sample.caret 0 1] this
       (Sample.caret 7 0) Cursor_toString_inj _ _)).
    + apply list_elem_of_further, list_elem_of_here.
    + reflexivity.
Defined.

Lemma cursors_never_empty_witness :
  let this :=
    set_cursors Sample.Cursor_isValid Sample.Cursor_toString []
      (cursors_push (Sample.caret 1 2) (new_VimState Sample.editor)) in
  _cursors this = [Sample.caret 0 0; Sample.caret 1 2]
  ∧ logger this = [TriedToSetCursorsToEmpty]
  ∧ _cursors this ≠ [].
Proof.
  intros this.
  pose proof (cursors_never_empty Sample.Position_isValid
                Sample.Cursor_isValid Sample.Cursor_toString) as [Hset Hinv].
  split; [|split].
  - apply (Hset (cursors_push (Sample.caret 1 2)
                   (new_VimState Sample.editor))).
    discriminate.
  - apply (Hset (cursors_push (Sample.caret 1 2)
                   (new_VimState Sample.editor))).
    discriminate.
  - apply (Hinv this). apply reach_set_cursors, reach_push, reach_new.
Defined.

Lemma set_cursors_deduplicates_witness :
  let value := [Sample.caret 0 3; Sample.caret 1 0; Sample.caret 0 3;
                mkCursor (Sample.position 1 0) (Sample.position 1 4);
                Sample.caret 1 0] in
  _cursors (set_cursors Sample.Cursor_isValid Sample.Cursor_toString value
              (new_VimState Sample.editor))
  = [Sample.caret 0 3; Sample.caret 1 0;
     mkCursor (Sample.position 1 0) (Sample.position 1 4)].
Proof.
  intros value.
  refine (proj1 (proj1 (set_cursors_deduplicates
                          Sample.Cursor_isValid Sample.Cursor_toString)
                   value (new_VimState Sample.editor) Cursor_toString_inj _)).
  discriminate.
Defined.

(** *** Count accumulation *)

(** Within the safe integers the arithmetic of the code is exact. *)
Lemma js_round_safe z :
  - MAX_SAFE_INTEGER <= z <= MAX_SAFE_INTEGER → js_round z = z.
Proof.
  unfold MAX_SAFE_INTEGER, js_round. intros Hz.
  assert ((Z.abs z <? 2 ^ 53) = true) as -> by lia. done.
Qed.

Lemma js_add_safe a b :
  - MAX_SAFE_INTEGER <= a + b <= MAX_SAFE_INTEGER → js_add a b = a + b.
Proof. apply js_round_safe. Qed.

Lemma js_sub_safe a b :
  - MAX_SAFE_INTEGER <= a - b <= MAX_SAFE_INTEGER → js_sub a b = a - b.
Proof. apply js_round_safe. Qed.

Lemma js_mul_safe a b :
  - MAX_SAFE_INTEGER <= a * b <= MAX_SAFE_INTEGER → js_mul a b = a * b.
Proof. apply js_round_safe. Qed.

(** Rounding never reaches zero from elsewhere. *)
Lemma js_round_pos z : 0 < z → 0 < js_round z.
Proof.
  intros Hz. unfold js_round.
  destruct (Z.ltb_spec (Z.abs z) (2 ^ 53)) as [|Hbig]; [done|].
  rewrite Z.abs_eq in * by lia. rewrite Z.sgn_pos by done.
  set (ulp := 2 ^ (Z.log2 z - 52)).
  assert (53 <= Z.log2 z) as Hlog by (apply Z.log2_le_pow2; lia).
  assert (0 < ulp) as Hulp by (apply Z.pow_pos_nonneg; lia).
  assert (ulp <= z) as Hle.
  { transitivity (2 ^ Z.log2 z); [|apply Z.log2_spec; lia].
    apply Z.pow_le_mono_r; lia. }
  assert (0 < z / ulp) as Hq by (apply Z.div_str_pos; lia).
  destruct (_ || _); nia.
Qed.

Lemma parseInt_digitKey d :
  0 <= d <= 9 → parseInt (Some (digitKey d)) = Some d.
Proof.
  intros Hd.
  assert (d = 0 ∨ d = 1 ∨ d = 2 ∨ d = 3 ∨ d = 4 ∨ d = 5 ∨ d = 6 ∨ d = 7
          ∨ d = 8 ∨ d = 9) as Hcases by lia.
  repeat (destruct Hcases as [->|Hcases]; [reflexivity|]).
  by subst.
Qed.

(** What [actionsRun[actionsRun.length - 2]] reads once the running action
    has joined the list. *)
Lemma actionsRun_predecessor (l : list BaseAction) a b :
  let actions := l ++ [a; b] in
  (if Z.of_nat (length actions) - 2 <? 0 then None
   else actions !! Z.to_nat (Z.of_nat (length actions) - 2)) = Some a.
Proof.
  simpl. rewrite length_app. simpl.
  replace (Z.of_nat (length l + 2) - 2) with (Z.of_nat (length l)) by lia.
  destruct (Z.ltb_spec (Z.of_nat (length l)) 0) as [Hlt|_]; [lia|].
  rewrite Nat2Z.id. by rewrite list_lookup_middle.
Qed.

(** The rule of [CommandNumber.exec] itself, for any receiver whose first
    key is a digit. *)
Lemma CommandNumber_exec_rule this vimState num :
  parseInt (keysPressed this !! 0%nat) = Some num →
  let rs := recordedState vimState in
  let i := Z.of_nat (length (actionsRun rs)) - 2 in
  let lastAction := if i <? 0 then None else actionsRun rs !! Z.to_nat i in
  CommandNumber.exec this vimState
  = Some (with_recordedState
            (with_count
               (if 0 <? operatorCount rs then
                  if instanceof lastAction Tag.CommandNumber
                  then js_add (js_mul (count rs) 10)
                         (js_mul num (operatorCount rs))
                  else js_mul (operatorCount rs) num
                else js_add (js_mul (count rs) 10) num) rs) vimState).
Proof.
  intros Hnum. unfold CommandNumber.exec. rewrite Hnum. simpl.
  destruct (0 <? operatorCount (recordedState vimState)); [|done].
  by destruct (instanceof _ _).
Qed.

Lemma handleKeys_cons key keys vimState :
  ModeHandler.handleKeys (key :: keys) vimState
  = ModeHandler.handleKey key vimState ≫= ModeHandler.handleKeys keys.
Proof. done. Qed.

Lemma handleKey_operator op vimState :
  parseInt (Some op) = None →
  ModeHandler.handleKey op vimState = ModeHandler.runOperator op vimState.
Proof. intros Hop. unfold ModeHandler.handleKey. by rewrite Hop. Qed.

(** A digit key runs the number action on the state the action has already
    joined; [prev] is the action that ran before it. *)
Lemma handleKey_digit d vimState l prev :
  0 <= d <= 9 →
  actionsRun (recordedState vimState) = l ++ [prev] →
  let rs := recordedState vimState in
  ModeHandler.handleKey (digitKey d) vimState
  = Some (with_recordedState
            (with_count
               (if 0 <? operatorCount rs then
                  if bool_decide (actionClass prev = Tag.CommandNumber)
                  then js_add (js_mul (count rs) 10)
                         (js_mul d (operatorCount rs))
                  else js_mul (operatorCount rs) d
                else js_add (js_mul (count rs) 10) d)
               (with_actionsRun
                  (actionsRun rs ++ [CommandNumber.new (digitKey d)]) rs))
            vimState).
Proof.
  intros Hd Hl rs. subst rs.
  pose proof (parseInt_digitKey d Hd) as Hp.
  unfold ModeHandler.handleKey. rewrite Hp.
  unfold ModeHandler.runNumber.
  rewrite (CommandNumber_exec_rule _ _ d) by exact Hp.
  unfold ModeHandler.appendAction.
  cbn [recordedState with_recordedState with_actionsRun actionsRun
       operatorCount count with_count editor _cursors macro logger
       registerName].
  rewrite Hl, <- app_assoc.
  cbn [app]. rewrite (actionsRun_predecessor l).
  cbn [instanceof]. done.
Qed.

(** C1.  With a count entered before the operator, the first digit after
    the operator sets the count to the operator count times the digit; each
    further digit sets it to ten times the count plus the digit times the
    operator count; the keys 2, d, 3, 1 leave a count of 62.  The rule is
    that of the code as long as the new count is within the safe integers
    ([MAX_SAFE_INTEGER]), where the arithmetic of the code is exact. *)
Theorem count_multiplies_after_operator :
  (∀ vimState op d,
      0 < count (recordedState vimState) →
      count (recordedState vimState) * d <= MAX_SAFE_INTEGER →
      parseInt (Some op) = None →
      0 <= d <= 9 →
      ∃ vimState',
        ModeHandler.handleKeys [op; digitKey d] vimState = Some vimState'
        ∧ operatorCount (recordedState vimState')
          = count (recordedState vimState)
        ∧ count (recordedState vimState')
          = operatorCount (recordedState vimState') * d)
  ∧ (∀ vimState prev d,
        0 < operatorCount (recordedState vimState) →
        0 <= count (recordedState vimState) →
        count (recordedState vimState) * 10
        + d * operatorCount (recordedState vimState) <= MAX_SAFE_INTEGER →
        last (actionsRun (recordedState vimState)) = Some prev →
        actionClass prev = Tag.CommandNumber →
        0 <= d <= 9 →
        ∃ vimState',
          ModeHandler.handleKeys [digitKey d] vimState = Some vimState'
          ∧ operatorCount (recordedState vimState')
            = operatorCount (recordedState vimState)
          ∧ count (recordedState vimState')
            = count (recordedState vimState) * 10
              + d * operatorCount (recordedState vimState))
  ∧ (∀ ed,
        count ∘ recordedState
          <$> ModeHandler.handleKeys
                ["2"; "d"; "3"; "1"]%string (new_VimState ed)
        = Some 62).
Proof.
  split; [|split].
  - intros vimState op d Hc Hsafe Hop Hd.
    rewrite handleKeys_cons, (handleKey_operator _ _ Hop).
    unfold ModeHandler.runOperator. cbn [mbind option_bind].
    rewrite handleKeys_cons.
    erewrite handleKey_digit; [|done|reflexivity].
    eexists. split; [reflexivity|].
    cbn [recordedState with_recordedState with_actionsRun actionsRun
         operatorCount count with_count with_operatorCount
         ModeHandler.appendAction actionClass].
    destruct (Z.ltb_spec 0 (count (recordedState vimState))); [|lia].
    split; [done|]. rewrite bool_decide_eq_false_2 by done.
    apply js_mul_safe. unfold MAX_SAFE_INTEGER in *. split; [nia|lia].
  - intros vimState prev d Ho Hc Hsafe Hlast Hprev Hd.
    apply last_Some in Hlast as [l Hl].
    rewrite handleKeys_cons.
    erewrite handleKey_digit; [|done|exact Hl].
    eexists. split; [reflexivity|].
    cbn [recordedState with_recordedState with_actionsRun actionsRun
         operatorCount count with_count].
    destruct (Z.ltb_spec 0 (operatorCount (recordedState vimState))); [|lia].
    rewrite bool_decide_eq_true_2 by done. split; [done|].
    assert (0 <= d * operatorCount (recordedState vimState)) by nia.
    rewrite !js_mul_safe, js_add_safe;
      unfold MAX_SAFE_INTEGER in *; lia.
  - intros ed. reflexivity.
Qed.

Lemma count_multiplies_after_operator_witness :
  let vimState :=
    with_recordedState (with_count 2 new_RecordedState)
      (new_VimState Sample.editor) in
  (∃ vimState',
      ModeHandler.handleKeys ["d"; "3"]%string vimState = Some vimState'
      ∧ count (recordedState vimState') = 2 * 3)
  ∧ (∃ vimState',
        ModeHandler.handleKeys ["d"; "3"; "1"]%string vimState
        = Some vimState'
        ∧ count (recordedState vimState') = 62).
Proof.
  intros vimState.
  destruct (proj1 count_multiplies_after_operator vimState "d"%string 3)
    as (vs1 & Hrun1 & Hop1 & Hcount1);
    [reflexivity|vm_compute; discriminate|reflexivity|lia|].
  assert (Hvs1 : vs1 = default vimState
                         (ModeHandler.handleKeys ["d"; "3"]%string vimState))
    by (change (digitKey 3) with "3"%string in Hrun1; by rewrite Hrun1).
  split.
  - exists vs1. split; [exact Hrun1|]. rewrite Hcount1, Hop1. reflexivity.
  - destruct (proj1 (proj2 count_multiplies_after_operator) vs1
                (CommandNumber.new "3") 1)
      as (vs2 & Hrun2 & Hop2 & Hcount2).
    + rewrite Hop1. reflexivity.
    + rewrite Hcount1, Hop1. vm_compute. discriminate.
    + rewrite Hcount1, Hop1. vm_compute. discriminate.
    + rewrite Hvs1. reflexivity.
    + reflexivity.
    + lia.
    + exists vs2. split.
      * change (ModeHandler.handleKeys ["d"; "3"; "1"]%string vimState)
          with (ModeHandler.handleKeys ["d"; "3"]%string vimState
                ≫= ModeHandler.handleKeys ["1"]%string).
        change (digitKey 3) with "3"%string in Hrun1. rewrite Hrun1.
        exact Hrun2.
      * rewrite Hcount2, Hcount1, Hop1. reflexivity.
Defined.

(** The rule along a whole run of digits: after the operator the count is
    the operator count times the first digit, then folds each further digit
    in. *)
Lemma handleKeys_following_digits ds vimState prev :
  0 < operatorCount (recordedState vimState) →
  last (actionsRun (recordedState vimState)) = Some prev →
  actionClass prev = Tag.CommandNumber →
  Forall (λ d, 0 <= d <= 9) ds →
  count ∘ recordedState
    <$> ModeHandler.handleKeys (digitKey <$> ds) vimState
  = Some (foldl (λ acc d,
                   js_add (js_mul acc 10)
                     (js_mul d (operatorCount (recordedState vimState))))
            (count (recordedState vimState)) ds).
Proof.
  intros Ho Hlast Hprev Hds. revert vimState prev Ho Hlast Hprev.
  induction Hds as [|d ds Hd Hds IH]; intros vimState prev Ho Hlast Hprev.
  - done.
  - apply last_Some in Hlast as [l Hl].
    rewrite fmap_cons, handleKeys_cons.
    erewrite handleKey_digit; [|done|exact Hl].
    cbn [mbind option_bind].
    erewrite IH.
    + cbn [recordedState with_recordedState with_actionsRun actionsRun
           operatorCount count with_count foldl].
      destruct (Z.ltb_spec 0 (operatorCount (recordedState vimState)));
        [|lia].
      by rewrite bool_decide_eq_true_2.
    + done.
    + cbn [recordedState with_recordedState with_actionsRun actionsRun
           with_count]. apply last_snoc.
    + done.
Qed.

Lemma handleKeys_operator_then_digits op d ds vimState :
  0 < count (recordedState vimState) →
  parseInt (Some op) = None →
  0 <= d <= 9 →
  Forall (λ d, 0 <= d <= 9) ds →
  count ∘ recordedState
    <$> ModeHandler.handleKeys (op :: digitKey d :: (digitKey <$> ds)) vimState
  = Some (foldl (λ acc d,
                   js_add (js_mul acc 10)
                     (js_mul d (count (recordedState vimState))))
            (js_mul (count (recordedState vimState)) d) ds).
Proof.
  intros Hc Hop Hd Hds.
  rewrite handleKeys_cons, (handleKey_operator _ _ Hop).
  unfold ModeHandler.runOperator. cbn [mbind option_bind].
  rewrite handleKeys_cons.
  erewrite handleKey_digit; [|done|reflexivity].
  cbn [mbind option_bind].
  erewrite handleKeys_following_digits; [| |apply last_snoc|done|done].
  - cbn [recordedState with_recordedState with_actionsRun actionsRun
         operatorCount count with_count with_operatorCount
         ModeHandler.appendAction actionClass].
    destruct (Z.ltb_spec 0 (count (recordedState vimState))); [|lia].
    done.
  - done.
Qed.

(** Beyond the safe integers the code rounds as doubles do.  After a
    count of 3002399751580331 and an operator, the digit 3 stores [2 ^ 53]
    where the product is [2 ^ 53 + 1]; sixteen digits 9 store [10 ^ 16];
    and [gJ] with a count of [2 ^ 53 + 2] joins [2 ^ 53] line ends. *)
Example counts_round_beyond_safe_integers :
  count ∘ recordedState
    <$> ModeHandler.handleKeys ["d"; "3"]%string
          (with_recordedState (with_count 3002399751580331 new_RecordedState)
             (new_VimState Sample.editor))
  = Some (2 ^ 53)
  ∧ count ∘ recordedState
      <$> ModeHandler.handleKeys (replicate 16 "9"%string)
            (new_VimState Sample.editor)
    = Some (10 ^ 16)
  ∧ ActionJoinNoWhitespace.joinCount (2 ^ 53 + 2) = 2 ^ 53.
Proof. repeat split; vm_compute; reflexivity. Qed.

(** *** The digit 0 *)

(** C8.  On the key 0 the number action applies exactly when the base test
    passes and a count has been accumulated ([count > 0]); on any other key
    only the base test decides.  With no count, 0 is therefore not resolved
    as a count digit but as the next catalog entry for it, the move to
    column 0. *)
Theorem zero_is_a_digit_only_after_a_count :
  ∀ (super_does super_could : VimState → list string → bool)
    (vimState : VimState) (keysPressed : list string),
    (keysPressed !! 0%nat = Some "0"%string →
       CommandNumber.doesActionApply super_does vimState keysPressed
       = super_does vimState keysPressed
         && (0 <? count (recordedState vimState))
       ∧ CommandNumber.couldActionApply super_could vimState keysPressed
         = super_could vimState keysPressed
           && (0 <? count (recordedState vimState)))
    ∧ (keysPressed !! 0%nat ≠ Some "0"%string →
         CommandNumber.doesActionApply super_does vimState keysPressed
         = super_does vimState keysPressed
         ∧ CommandNumber.couldActionApply super_could vimState keysPressed
           = super_could vimState keysPressed)
    ∧ (keysPressed !! 0%nat = Some "0"%string →
         count (recordedState vimState) <= 0 →
         CommandNumber.doesActionApply super_does vimState keysPressed = false
         ∧ CommandNumber.couldActionApply super_could vimState keysPressed
           = false
         ∧ ∀ move_applies : VimState → list string → bool,
             move_applies vimState keysPressed = true →
             ModeHandler.resolve
               [(Tag.CommandNumber,
                 CommandNumber.doesActionApply super_does);
                (Tag.MoveToColumnZero, move_applies)]
               vimState keysPressed
             = Some Tag.MoveToColumnZero).
Proof.
  intros super_does super_could vimState keysPressed.
  split; [|split].
  - intros Hz.
    unfold CommandNumber.doesActionApply, CommandNumber.couldActionApply.
    rewrite !bool_decide_eq_true_2 by done. simpl.
    by rewrite !orb_false_r.
  - intros Hz.
    unfold CommandNumber.doesActionApply, CommandNumber.couldActionApply.
    rewrite !bool_decide_eq_false_2 by done. simpl.
    by rewrite !andb_true_r.
  - intros Hz Hc.
    assert (Hlt : (0 <? count (recordedState vimState)) = false)
      by (apply Z.ltb_ge; lia).
    assert (Hdoes :
      CommandNumber.doesActionApply super_does vimState keysPressed = false).
    { unfold CommandNumber.doesActionApply.
      rewrite bool_decide_eq_true_2, Hlt by done. simpl.
      by rewrite andb_false_r. }
    split; [exact Hdoes|]. split.
    + unfold CommandNumber.couldActionApply.
      rewrite bool_decide_eq_true_2, Hlt by done. simpl.
      by rewrite andb_false_r.
    + intros move_applies Hmove. simpl. by rewrite Hdoes, Hmove.
Qed.

Lemma zero_is_a_digit_only_after_a_count_witness :
  let always (_ : VimState) (_ : list string) := true in
  let fresh := new_VimState Sample.editor in
  let counted := with_recordedState (with_count 2 new_RecordedState) fresh in
  CommandNumber.doesActionApply always fresh ["0"%string] = false
  ∧ CommandNumber.doesActionApply always counted ["0"%string] = true
  ∧ CommandNumber.doesActionApply always fresh ["7"%string] = true
  ∧ ModeHandler.resolve
      [(Tag.CommandNumber, CommandNumber.doesActionApply always);
       (Tag.MoveToColumnZero, always)] fresh ["0"%string]
    = Some Tag.MoveToColumnZero.
Proof.
  intros always fresh counted.
  pose proof (zero_is_a_digit_only_after_a_count always always)
    as Hrule.
  destruct (Hrule fresh ["0"%string]) as (_ & _ & Hzero).
  destruct Hzero as (Hdoes & _ & Hresolve); [reflexivity|simpl; lia|].
  destruct (Hrule counted ["0"%string]) as (Hcounted & _ & _).
  destruct (Hrule fresh ["7"%string]) as (_ & Hseven & _).
  split; [exact Hdoes|].
  split; [exact (proj1 (Hcounted eq_refl))|].
  split; [apply Hseven; discriminate|].
  apply Hresolve. reflexivity.
Defined.

(** *** Register selection *)

(** C7, as amended.  A key after the double quote that is outside the
    register alphabet makes the action's [isCompleteAction] true: the action
    completes as a no-op, and the pending command, its [registerName]
    included, is left as it was. *)
Theorem invalid_register_completes_as_noop :
  ∀ (isValidRegister : string → bool) (keys : list string)
    (register : string) (vimState : VimState),
    keys !! 1%nat = Some register →
    isValidRegister register = false →
    isCompleteAction (CommandRegister.new keys) = false
    ∧ ∃ this',
        CommandRegister.exec isValidRegister (CommandRegister.new keys)
          vimState = Some (this', vimState)
        ∧ isCompleteAction this' = true
        ∧ keysPressed this' = keys.
Proof.
  intros isValidRegister keys register vimState Hkey Hinvalid.
  split; [done|].
  unfold CommandRegister.exec, CommandRegister.new. simpl.
  rewrite Hkey. simpl. rewrite Hinvalid.
  eexists. split; [reflexivity|]. done.
Qed.

(** A key of the alphabet, for comparison: the register is selected and the
    action stays incomplete, awaiting the rest of the command. *)
Lemma valid_register_is_selected
    (isValidRegister : string → bool) keys register vimState :
  keys !! 1%nat = Some register →
  isValidRegister register = true →
  CommandRegister.exec isValidRegister (CommandRegister.new keys) vimState
  = Some (CommandRegister.new keys,
          with_recordedState
            (with_registerName register (recordedState vimState)) vimState).
Proof.
  intros Hkey Hvalid. unfold CommandRegister.exec, CommandRegister.new.
  simpl. rewrite Hkey. simpl. by rewrite Hvalid.
Qed.

(** C7 as stated fails: after the double quote, the key [!] is outside the
    sample alphabet and the flag ends up true, not false. *)
Lemma invalid_register_flag_is_true :
  Sample.isValidRegister "!"%string = false
  ∧ (isCompleteAction ∘ fst
       <$> CommandRegister.exec Sample.isValidRegister
             (CommandRegister.new [quoteKey; "!"%string])
             (new_VimState Sample.editor)) = Some true
  ∧ Some true ≠ Some false.
Proof. repeat split; (reflexivity || discriminate). Qed.

Lemma invalid_register_completes_as_noop_witness :
  ∃ this',
    CommandRegister.exec Sample.isValidRegister
      (CommandRegister.new [quoteKey; "!"%string])
      (new_VimState Sample.editor)
    = Some (this', new_VimState Sample.editor)
    ∧ isCompleteAction this' = true.
Proof.
  destruct (proj2 (invalid_register_completes_as_noop
                     Sample.isValidRegister [quoteKey; "!"%string]
                     "!"%string (new_VimState Sample.editor)
                     eq_refl eq_refl))
    as (this' & Hexec & Hflag & _).
  exists this'. split; [exact Hexec|exact Hflag].
Defined.

(** *** Recording a macro *)

Lemma recordActions_macro actions vimState m :
  macro vimState = Some m →
  recordActions actions vimState
  = with_macro (Some (with_actionsRun (actionsRun m ++ actions) m)) vimState.
Proof.
  unfold recordActions.
  revert vimState m. induction actions as [|a actions IH];
    intros vimState m Hm; simpl.
  - rewrite app_nil_r. destruct vimState, m; simpl in *. by subst.
  - erewrite IH; [|unfold appendToMacro; rewrite Hm; reflexivity].
    unfold appendToMacro. rewrite Hm. simpl.
    by rewrite <- app_assoc.
Qed.

Lemma Register_has_true register (registers : Register.table) content :
  registers !! register = Some content → Register.has register registers = true.
Proof.
  intros Hr. unfold Register.has. apply bool_decide_eq_true_2. by eexists.
Qed.

(** C6.  A recording started with an upper-case key, whose lower-case
    register already holds a recorded state, ends with the recorded actions
    appended after the register's actions; a recording started with a key
    that is not upper-case ends with the register holding the recorded
    actions only, whatever it held before. *)
Theorem macro_appends_or_overwrites :
  (∀ registerKey actions vimState (registers : Register.table) existing,
      test_upper registerKey = true →
      registers !! toLocaleLowerCase registerKey
      = Some (MacroContent existing) →
      ∃ vimState',
        recordMacro registerKey actions vimState registers
        = Some (vimState',
                <[toLocaleLowerCase registerKey :=
                    MacroContent
                      (with_actionsRun (actionsRun existing ++ actions)
                         existing)]> registers)
        ∧ macro vimState' = None)
  ∧ (∀ registerKey actions vimState (registers : Register.table),
        test_upper registerKey = false →
        ∃ vimState' (registers' : Register.table),
          recordMacro registerKey actions vimState registers
          = Some (vimState', registers')
          ∧ macro vimState' = None
          ∧ registers' !! toLocaleLowerCase registerKey
            = Some (MacroContent
                      (mkRecordedState 0 0 actions
                         (toLocaleLowerCase registerKey)))
          ∧ ∀ other, other ≠ toLocaleLowerCase registerKey →
                     registers' !! other = registers !! other).
Proof.
  split.
  - intros registerKey actions vimState registers existing Hup Hreg.
    unfold recordMacro, CommandRecordMacro.exec, CommandRecordMacro.new.
    cbn [keysPressed lookup list_lookup mbind option_bind].
    rewrite Hup, (Register_has_true _ _ _ Hreg).
    cbn [negb orb mbind option_bind].
    erewrite recordActions_macro by reflexivity.
    unfold CommandQuitRecordMacro.exec.
    cbn [macro with_macro mbind option_bind registerName with_registerName
         new_RecordedState actionsRun with_actionsRun app].
    unfold Register.get. rewrite Hreg.
    eexists. split; [reflexivity|done].
  - intros registerKey actions vimState registers Hlow.
    unfold recordMacro, CommandRecordMacro.exec, CommandRecordMacro.new.
    cbn [keysPressed lookup list_lookup mbind option_bind].
    rewrite Hlow. cbn [negb orb mbind option_bind].
    erewrite recordActions_macro by reflexivity.
    unfold CommandQuitRecordMacro.exec, Register.put.
    cbn [macro with_macro mbind option_bind registerName with_registerName
         new_RecordedState actionsRun with_actionsRun app recordedState
         with_recordedState].
    unfold Register.get. rewrite lookup_insert_eq.
    eexists _, _. split; [reflexivity|]. split; [done|]. split.
    + by rewrite lookup_insert_eq.
    + intros other Hother. by rewrite !lookup_insert_ne.
Qed.

Lemma macro_appends_or_overwrites_witness :
  let keyAction k := mkAction (Tag.OtherAction k) [k] true in
  let foo := keyAction <$> ["f"; "o"; "o"]%string in
  let bar := keyAction <$> ["b"; "a"; "r"]%string in
  let registers : Register.table :=
    {[ "a"%string := MacroContent (mkRecordedState 0 0 foo "a") ]} in
  (snd <$> recordMacro "A" bar (new_VimState Sample.editor) registers)
    ≫= (λ registers' : Register.table, registers' !! "a"%string)
  = Some (MacroContent (mkRecordedState 0 0 (foo ++ bar) "a"))
  ∧ (snd <$> recordMacro "a" bar (new_VimState Sample.editor) registers)
      ≫= (λ registers' : Register.table, registers' !! "a"%string)
    = Some (MacroContent (mkRecordedState 0 0 bar "a")).
Proof.
  intros keyAction foo bar registers.
  destruct (proj1 macro_appends_or_overwrites "A"%string bar
              (new_VimState Sample.editor) registers
              (mkRecordedState 0 0 foo "a"))
    as (vs1 & Hrun1 & _); [reflexivity|reflexivity|].
  destruct (proj2 macro_appends_or_overwrites "a"%string bar
              (new_VimState Sample.editor) registers)
    as (vs2 & registers2 & Hrun2 & _ & Hreg2 & _); [reflexivity|].
  split.
  - rewrite Hrun1. cbn [fmap option_fmap option_map snd mbind option_bind].
    apply lookup_insert_eq.
  - rewrite Hrun2. exact Hreg2.
Defined.

(** *** Compressing content changes *)

Section ContentChangeFacts.
Import DocumentContentChangeAction.
Implicit Types (first second change : Change) (changes : list Change).

Lemma merge_concatenates first second :
  vscode.rangeOffset first + js_length (vscode.text first)
  = vscode.rangeOffset second
  ∨ vscode.rangeLength second = 0 →
  merge first second
  = Some (vscode.mkChange (vscode.range first) (vscode.rangeOffset first)
            (vscode.rangeLength first)
            (vscode.text first +:+ vscode.text second)).
Proof.
  intros Hrule. unfold merge.
  destruct Hrule as [Hadj|Hins].
  - by rewrite (bool_decide_eq_true_2 _ Hadj).
  - rewrite (bool_decide_eq_true_2 _ Hins). by rewrite orb_true_r.
Qed.

(** One turn of the loop with a change in hand. *)
Lemma compress_loop_step change changes compressed prev :
  compress_loop (change :: changes) compressed (Some prev)
  = match merge prev change with
    | Some merged => compress_loop changes compressed (Some merged)
    | None => compress_loop changes (compressed ++ [prev]) (Some change)
    end.
Proof. done. Qed.

Lemma addChanges_pair first second :
  contentChanges (addChanges [first; second] new)
  = match merge first second with
    | Some merged => [merged]
    | None => [first; second]
    end.
Proof.
  unfold addChanges, compressChanges. simpl.
  by destruct (merge first second).
Qed.

Lemma addChanges_one_by_one first second :
  addChanges [second] (addChanges [first] new)
  = addChanges [first; second] new.
Proof. done. Qed.

(** C4.  Two consecutive changes of which the first ends where the second
    starts, or of which the second replaces nothing, compress to one
    change: the first's range, offset and length with the two texts
    concatenated.  The example of the specification is an instance. *)
Theorem adjacent_changes_concatenate :
  (∀ first second,
      vscode.rangeOffset first + js_length (vscode.text first)
      = vscode.rangeOffset second
      ∨ vscode.rangeLength second = 0 →
      let merged :=
        vscode.mkChange (vscode.range first) (vscode.rangeOffset first)
          (vscode.rangeLength first)
          (vscode.text first +:+ vscode.text second) in
      contentChanges (addChanges [first; second] new) = [merged]
      ∧ contentChanges (addChanges [second] (addChanges [first] new))
        = [merged]
      ∧ ∀ changes compressed,
          compress_loop (second :: changes) compressed (Some first)
          = compress_loop changes compressed (Some merged))
  ∧ contentChanges
      (addChanges
         [vscode.mkChange (Sample.emptyRange 0 0) 0 0 "f";
          vscode.mkChange (Sample.emptyRange 0 1) 1 0 "oo"]
         new)
    = [vscode.mkChange (Sample.emptyRange 0 0) 0 0 "foo"].
Proof.
  split; [|reflexivity].
  intros first second Hrule merged.
  pose proof (merge_concatenates first second Hrule) as Hmerge.
  split; [|split].
  - by rewrite addChanges_pair, Hmerge.
  - by rewrite addChanges_one_by_one, addChanges_pair, Hmerge.
  - intros changes compressed. by rewrite compress_loop_step, Hmerge.
Qed.

(** When the concatenation rule does not apply and the text the first
    change put in covers the range the second replaces, the second's text
    is spliced into the first's. *)
Lemma contained_change_is_spliced first second :
  vscode.rangeOffset first + js_length (vscode.text first)
  ≠ vscode.rangeOffset second →
  vscode.rangeLength second ≠ 0 →
  vscode.rangeOffset first <= vscode.rangeOffset second →
  0 <= vscode.rangeLength second →
  vscode.rangeOffset second + vscode.rangeLength second
  <= vscode.rangeOffset first + js_length (vscode.text first) →
  let start := vscode.rangeOffset second - vscode.rangeOffset first in
  contentChanges (addChanges [first; second] new)
  = [vscode.mkChange (vscode.range first) (vscode.rangeOffset first)
       (vscode.rangeLength first)
       (js_slice (vscode.text first) 0 start
        +:+ vscode.text second
        +:+ js_slice_from (vscode.text first)
              (start + vscode.rangeLength second))].
Proof.
  intros Hadj Hins Hle Hlen Hin start.
  rewrite addChanges_pair. unfold merge.
  rewrite (bool_decide_eq_false_2 _ Hadj), (bool_decide_eq_false_2 _ Hins).
  rewrite (bool_decide_eq_true_2 _ Hle).
  rewrite bool_decide_eq_true_2 by lia. done.
Qed.

(** When [merge] declines, both changes stay, in order. *)
Lemma unmerged_changes_are_kept first second :
  merge first second = None →
  contentChanges (addChanges [first; second] new) = [first; second].
Proof. intros Hnone. by rewrite addChanges_pair, Hnone. Qed.

(** The guard of the splice branch in full: besides containment it lets
    through every second change that starts at or after the first and
    replaces no more characters than the first's text has. *)
Lemma merge_splice_guard first second :
  vscode.rangeOffset first + js_length (vscode.text first)
  ≠ vscode.rangeOffset second →
  vscode.rangeLength second ≠ 0 →
  (is_Some (merge first second)
   ↔ vscode.rangeOffset first <= vscode.rangeOffset second
     ∧ vscode.rangeLength second <= js_length (vscode.text first)).
Proof.
  intros Hadj Hins. unfold merge.
  rewrite (bool_decide_eq_false_2 _ Hadj), (bool_decide_eq_false_2 _ Hins).
  simpl. split.
  - intros Hsome.
    destruct (bool_decide _) eqn:H1 in Hsome;
      destruct (bool_decide _) eqn:H2 in Hsome;
      simpl in Hsome; try by destruct Hsome.
    apply bool_decide_eq_true_1 in H1, H2. done.
  - intros [H1 H2].
    rewrite (bool_decide_eq_true_2 _ H1), (bool_decide_eq_true_2 _ H2).
    by eexists.
Qed.

(** C5 fails on these inputs.  The first change inserted [abc] at offset
    0.  A second change that replaces offsets 2 to 4 by [X] reaches one
    character beyond that text, and a second change that replaces offsets
    10 to 11 lies wholly outside it; the concatenation rule applies to
    neither and the first's text contains neither range, yet each is
    merged into the first ([abX], [abcX]) instead of being kept as a
    second entry. *)
Theorem uncontained_change_is_merged :
  let first := vscode.mkChange (Sample.emptyRange 0 0) 0 0 "abc" in
  let overlapping :=
    vscode.mkChange
      (vscode.mkRange (Sample.position 0 2) (Sample.position 0 4))
      2 2 "X" in
  let disjoint :=
    vscode.mkChange
      (vscode.mkRange (Sample.position 0 10) (Sample.position 0 11))
      10 1 "X" in
  let concatenable second :=
    vscode.rangeOffset first + js_length (vscode.text first)
    = vscode.rangeOffset second
    ∨ vscode.rangeLength second = 0 in
  let contained second :=
    vscode.rangeOffset first <= vscode.rangeOffset second
    ∧ vscode.rangeOffset second + vscode.rangeLength second
      <= vscode.rangeOffset first + js_length (vscode.text first) in
  ¬ concatenable overlapping ∧ ¬ contained overlapping
  ∧ contentChanges (addChanges [first; overlapping] new)
    = [vscode.mkChange (Sample.emptyRange 0 0) 0 0 "abX"]
  ∧ contentChanges (addChanges [first; overlapping] new)
    ≠ [first; overlapping]
  ∧ ¬ concatenable disjoint ∧ ¬ contained disjoint
  ∧ contentChanges (addChanges [first; disjoint] new)
    = [vscode.mkChange (Sample.emptyRange 0 0) 0 0 "abcX"]
  ∧ contentChanges (addChanges [first; disjoint] new)
    ≠ [first; disjoint].
Proof.
  intros first overlapping disjoint concatenable contained.
  assert (Hconc : ∀ second,
             vscode.rangeOffset second ≠ 3 →
             vscode.rangeLength second ≠ 0 → ¬ concatenable second).
  { intros second Hoff Hlen [Hadj|Hins]; [|done].
    apply Hoff. by rewrite <- Hadj. }
  assert (Hcont : ∀ second,
             3 < vscode.rangeOffset second + vscode.rangeLength second →
             ¬ contained second).
  { intros second Hend [_ Hle].
    change (vscode.rangeOffset first + js_length (vscode.text first))
      with 3 in Hle. lia. }
  split; [by apply Hconc|]. split; [by apply Hcont|].
  split; [reflexivity|]. split; [discriminate|].
  split; [by apply Hconc|]. split; [by apply Hcont|].
  split; [reflexivity|discriminate].
Qed.

End ContentChangeFacts.

Lemma adjacent_changes_concatenate_witness :
  let first := vscode.mkChange (Sample.emptyRange 3 5) 47 0 "wor" in
  let second := vscode.mkChange (Sample.emptyRange 3 8) 50 0 "ld" in
  DocumentContentChangeAction.contentChanges
    (DocumentContentChangeAction.addChanges [first; second]
       DocumentContentChangeAction.new)
  = [vscode.mkChange (Sample.emptyRange 3 5) 47 0 "world"].
Proof.
  intros first second.
  apply (proj1 adjacent_changes_concatenate first second).
  left. reflexivity.
Defined.

(** *** The two sneak highlighters *)

Section SneakFacts.
Context {G : Type}.
Variable MG : MarkerGenerator G.
Variable sneakLabelTargets : string.

Lemma generateMarkers_loop_agree markerGenerator ranges index markers :
  SneakHighlighterV1.generateMarkers_loop MG markerGenerator ranges index
    markers
  = SneakHighlighterV2.generateMarkers_loop MG markerGenerator ranges index
      markers.
Proof.
  revert markerGenerator index markers.
  induction ranges as [|range ranges IH];
    intros markerGenerator index markers; simpl; [done|].
  destruct (generateMarker MG markerGenerator index _ false)
    as [[marker|] markerGenerator']; [apply IH|done].
Qed.

Lemma getMarkPosition_agree marker h1 h2 :
  SneakHighlighterV1.markers h1 = SneakHighlighterV2.markers h2 →
  SneakHighlighterV1.getMarkPosition marker h1
  = SneakHighlighterV2.getMarkPosition marker h2.
Proof.
  intros Hm.
  unfold SneakHighlighterV1.getMarkPosition,
    SneakHighlighterV2.getMarkPosition.
  by rewrite Hm.
Qed.

(** C10.  From the same ranges to highlight and the same marker table,
    the two versions of [generateMarkers] build the same table, for every
    marker generator and label targets, and [getMarkPosition] then answers
    alike for every marker string, before and after generating. *)
Theorem sneak_highlighters_agree_on_markers :
  ∀ (ranges : list vscode.Range) (markers : JsMap.t vscode.Range),
    let h1 := SneakHighlighterV1.mk ranges markers in
    let h2 := SneakHighlighterV2.mk ranges markers in
    let h1' := SneakHighlighterV1.generateMarkers MG sneakLabelTargets h1 in
    let h2' := SneakHighlighterV2.generateMarkers MG sneakLabelTargets h2 in
    SneakHighlighterV1.markers h1' = SneakHighlighterV2.markers h2'
    ∧ SneakHighlighterV1.rangesToHighlight h1'
      = SneakHighlighterV2.rangesToHighlight h2'
    ∧ (∀ marker : string,
          SneakHighlighterV1.getMarkPosition marker h1
          = SneakHighlighterV2.getMarkPosition marker h2)
    ∧ (∀ marker : string,
          SneakHighlighterV1.getMarkPosition marker h1'
          = SneakHighlighterV2.getMarkPosition marker h2').
Proof.
  intros ranges markers h1 h2 h1' h2'.
  assert (Hm : SneakHighlighterV1.markers h1'
               = SneakHighlighterV2.markers h2')
    by apply generateMarkers_loop_agree.
  split; [exact Hm|]. split; [done|]. split.
  - intros marker. by apply getMarkPosition_agree.
  - intros marker. by apply getMarkPosition_agree.
Qed.

End SneakFacts.

(** The two versions on the sample generator: three matches, two label
    characters, so the third match gets no marker. *)
Example sneak_markers_sample :
  let ranges :=
    [Sample.emptyRange 0 2; Sample.emptyRange 1 4; Sample.emptyRange 1 9] in
  let h :=
    SneakHighlighterV1.generateMarkers Sample.markerGenerator "sf"
      (SneakHighlighterV1.mk ranges JsMap.empty) in
  SneakHighlighterV1.markers h
  = [("s"%string, Sample.emptyRange 0 2); ("f"%string, Sample.emptyRange 1 4)]
  ∧ SneakHighlighterV1.getMarkPosition "f" h = Some (Sample.position 1 4)
  ∧ SneakHighlighterV1.getMarkPosition "x" h = None.
Proof. repeat split. Qed.

(** *** More on compressing content changes *)

Lemma string_app_nil_r (s : string) : s +:+ EmptyString = s.
Proof.
  induction s as [|c s IH]; [done|].
  change (String c (s +:+ EmptyString) = String c s). by rewrite IH.
Qed.

Lemma string_app_assoc (s1 s2 s3 : string) :
  (s1 +:+ s2) +:+ s3 = s1 +:+ s2 +:+ s3.
Proof.
  induction s1 as [|c s1 IH]; [done|].
  change (String c ((s1 +:+ s2) +:+ s3) = String c (s1 +:+ s2 +:+ s3)).
  by rewrite IH.
Qed.

Lemma string_app_length (s1 s2 : string) :
  String.length (s1 +:+ s2) = (String.length s1 + String.length s2)%nat.
Proof.
  induction s1 as [|c s1 IH]; [done|].
  change (S (String.length (s1 +:+ s2))
          = S (String.length s1 + String.length s2)).
  by rewrite IH.
Qed.

Section ContentChangeMore.
Import DocumentContentChangeAction.
Implicit Types (first second change p q : Change) (changes : list Change).

Lemma merge_replaced first second merged :
  merge first second = Some merged → replaced merged = replaced first.
Proof.
  unfold merge. intros Hm.
  repeat (case_match; simplify_eq); done.
Qed.

Lemma merge_None_ext first first' second second' :
  vscode.rangeOffset first = vscode.rangeOffset first' →
  vscode.text first = vscode.text first' →
  vscode.rangeOffset second = vscode.rangeOffset second' →
  vscode.rangeLength second = vscode.rangeLength second' →
  merge first second = None → merge first' second' = None.
Proof.
  unfold merge. intros -> -> -> -> Hm.
  repeat (case_match; simplify_eq); done.
Qed.

Lemma compress_loop_app changes1 changes2 compressed prev :
  compress_loop (changes1 ++ changes2) compressed prev
  = compress_loop changes2 (compress_loop changes1 compressed prev).1
      (compress_loop changes1 compressed prev).2.
Proof.
  revert compressed prev.
  induction changes1 as [|change changes1 IH]; intros compressed prev;
    [done|].
  simpl. destruct prev as [p|]; [|apply IH].
  destruct (merge p change); apply IH.
Qed.

(** The stored list of a loop state. *)
Local Abbreviation stored state := (state.1 ++ option_list state.2).

Lemma compressChanges_stored this :
  contentChanges (compressChanges this)
  = stored (compress_loop (contentChanges this) [] None).
Proof.
  unfold compressChanges.
  destruct (compress_loop _ _ _) as [compressed [p|]]; simpl; [done|].
  by rewrite app_nil_r.
Qed.

(** Running the loop keeps the stored list unmergeable. *)
Lemma compress_loop_unmergeable changes compressed prev :
  unmergeable (compressed ++ option_list prev) →
  (prev = None → compressed = []) →
  unmergeable (stored (compress_loop changes compressed prev))
  ∧ ((compress_loop changes compressed prev).2 = None →
     (compress_loop changes compressed prev).1 = []).
Proof.
  revert compressed prev.
  induction changes as [|change changes IH]; intros compressed prev Hu Hn;
    [done|].
  simpl. destruct prev as [p|].
  - destruct (merge p change) as [merged|] eqn:Hm.
    + apply IH; [|done].
      simpl in *. clear IH Hn.
      apply merge_replaced in Hm.
      induction compressed as [|x compressed IHc]; [done|].
      destruct compressed as [|y compressed]; simpl in *.
      * destruct Hu as [Hxp _]. split; [|done].
        unfold replaced in Hm. simplify_eq.
        eapply merge_None_ext; [..|exact Hxp]; done.
      * destruct Hu as [Hxy Hu]. split; [done|]. by apply IHc.
    + apply IH; [|done]. simpl in *. clear IH Hn.
      rewrite <- app_assoc. simpl.
      induction compressed as [|x compressed IHc]; [done|].
      destruct compressed as [|y compressed]; simpl in *.
      * destruct Hu as [Hxp _]. done.
      * destruct Hu as [Hxy Hu]. split; [done|]. by apply IHc.
  - rewrite (Hn eq_refl). apply IH; [done|done].
Qed.

(** On an unmergeable list the loop changes nothing. *)
Lemma compress_loop_fixed changes compressed p :
  unmergeable (p :: changes) →
  stored (compress_loop changes compressed (Some p))
  = compressed ++ p :: changes.
Proof.
  revert compressed p.
  induction changes as [|change changes IH]; intros compressed p Hu;
    [done|].
  simpl in *. destruct Hu as [Hm Hu]. rewrite Hm.
  rewrite IH by done. by rewrite <- app_assoc.
Qed.

Lemma compress_loop_fixed_state changes compressed p :
  unmergeable (p :: changes) →
  ∃ q, compress_loop changes compressed (Some p)
       = ((compressed ++ removelast (p :: changes)), Some q)
       ∧ last (p :: changes) = Some q.
Proof.
  revert compressed p.
  induction changes as [|change changes IH]; intros compressed p Hu.
  - exists p. simpl. by rewrite app_nil_r.
  - simpl in Hu. destruct Hu as [Hm Hu].
    cbn [compress_loop]. rewrite Hm.
    destruct (IH (compressed ++ [p]) change Hu) as (q & Hq & Hlast).
    exists q. rewrite Hq. split.
    + f_equal. rewrite <- app_assoc. done.
    + done.
Qed.


Lemma compress_loop_replay changes :
  compress_loop (stored (compress_loop changes [] None)) [] None
  = compress_loop changes [] None.
Proof.
  set (state := compress_loop changes [] None).
  destruct (compress_loop_unmergeable changes [] None) as [Hu Hn];
    [done|done|].
  fold state in Hu, Hn.
  destruct state as [compressed [q|]]; simpl in *.
  - destruct (compressed ++ [q]) as [|first rest] eqn:Hst.
    { by destruct compressed. }
    simpl.
    destruct (compress_loop_fixed_state rest [] first Hu)
      as (q' & Hq & Hlast).
    rewrite Hq, app_nil_l.
    rewrite <- Hst in Hlast |- *.
    rewrite last_snoc in Hlast. simplify_eq.
    by rewrite removelast_last.
  - rewrite (Hn eq_refl). done.
Qed.

Lemma compressChanges_app changes1 changes2 :
  compressChanges (mk (contentChanges (compressChanges (mk changes1))
                       ++ changes2))
  = compressChanges (mk (changes1 ++ changes2)).
Proof.
  rewrite compressChanges_stored. cbn [contentChanges].
  unfold compressChanges. cbn [contentChanges].
  rewrite compress_loop_app, compress_loop_replay.
  by rewrite <- compress_loop_app.
Qed.

(** X1.  Adding changes in two batches stores the same list as adding
    them in one, whatever was stored before. *)
Theorem addChanges_in_batches this changes1 changes2 :
  addChanges changes2 (addChanges changes1 this)
  = addChanges (changes1 ++ changes2) this.
Proof.
  unfold addChanges. rewrite compressChanges_app. by rewrite app_assoc.
Qed.

(** X2.  What [compressChanges] stores is in compressed form: no two
    neighbours can be merged, and compressing again changes nothing. *)
Theorem compressChanges_idempotent this :
  unmergeable (contentChanges (compressChanges this))
  ∧ compressChanges (compressChanges this) = compressChanges this.
Proof.
  split.
  - rewrite compressChanges_stored.
    by apply compress_loop_unmergeable.
  - pose proof (compressChanges_app (contentChanges this) []) as Happ.
    rewrite !app_nil_r in Happ. destruct this as [changes]. simpl in *.
    destruct (compressChanges (mk changes)) as [stored'] eqn:Hc.
    simpl in Happ. exact Happ.
Qed.

(** A run of insertions after a first change folds into that change. *)
Lemma compress_loop_insertions changes compressed p :
  Forall (λ change, vscode.rangeLength change = 0) changes →
  compress_loop changes compressed (Some p)
  = (compressed,
     Some (vscode.mkChange (vscode.range p) (vscode.rangeOffset p)
             (vscode.rangeLength p)
             (vscode.text p +:+ foldr String.append EmptyString
                                  (vscode.text <$> changes)))).
Proof.
  intros Hall. revert compressed p.
  induction Hall as [|change changes Hzero Hall IH]; intros compressed p.
  - simpl. destruct p. simpl. by rewrite string_app_nil_r.
  - cbn [compress_loop].
    rewrite (merge_concatenates p change) by (by right).
    rewrite IH. simpl. by rewrite string_app_assoc.
Qed.

Lemma addChanges_insertions first changes :
  Forall (λ change, vscode.rangeLength change = 0) changes →
  contentChanges (addChanges (first :: changes) new)
  = [vscode.mkChange (vscode.range first) (vscode.rangeOffset first)
       (vscode.rangeLength first)
       (vscode.text first +:+ foldr String.append EmptyString
                                (vscode.text <$> changes))].
Proof.
  intros Hall. unfold addChanges, compressChanges. simpl.
  by rewrite compress_loop_insertions.
Qed.

(** X3.  A change followed by insertions only (changes that replace
    nothing) is stored as that one change with all the texts appended in
    order. *)
Theorem typed_run_is_one_change first changes :
  Forall (λ change, vscode.rangeLength change = 0) changes →
  contentChanges (addChanges (first :: changes) new)
  = [vscode.mkChange (vscode.range first) (vscode.rangeOffset first)
       (vscode.rangeLength first)
       (vscode.text first +:+ foldr String.append EmptyString
                                (vscode.text <$> changes))].
Proof. apply addChanges_insertions. Qed.

Lemma compress_loop_replaced changes compressed prev :
  replaced <$> stored (compress_loop changes compressed prev)
  `sublist_of` replaced <$> (compressed ++ option_list prev ++ changes).
Proof.
  revert compressed prev.
  induction changes as [|change changes IH]; intros compressed prev.
  - simpl. by rewrite app_nil_r.
  - simpl. destruct prev as [p|]; simpl.
    + destruct (merge p change) as [merged|] eqn:Hm.
      * etrans; [apply IH|]. simpl.
        rewrite !fmap_app. apply sublist_app; [done|].
        simpl. rewrite (merge_replaced _ _ _ Hm).
        apply sublist_skip, sublist_cons. done.
      * etrans; [apply IH|]. simpl. by rewrite <- app_assoc.
    + etrans; [apply IH|]. done.
Qed.

Lemma compress_loop_head changes compressed prev :
  replaced <$> head (stored (compress_loop changes compressed prev))
  = replaced <$> head (compressed ++ option_list prev ++ changes).
Proof.
  revert compressed prev.
  induction changes as [|change changes IH]; intros compressed prev.
  - simpl. by rewrite app_nil_r.
  - simpl. destruct prev as [p|]; simpl.
    + destruct (merge p change) as [merged|] eqn:Hm; rewrite IH; simpl.
      * destruct compressed; simpl; [|done].
        by rewrite (merge_replaced _ _ _ Hm).
      * by rewrite <- app_assoc.
    + by rewrite IH.
Qed.

(** X4.  Compression rewrites texts only: the ranges, offsets and lengths
    stored are, in order, among those added; nothing is stored from
    nothing, something is stored from something, and the first stored
    change replaces what the first added change replaced. *)
Theorem compressChanges_replaced this :
  replaced <$> contentChanges (compressChanges this)
  `sublist_of` replaced <$> contentChanges this
  ∧ (length (contentChanges (compressChanges this))
     ≤ length (contentChanges this))%nat
  ∧ (contentChanges (compressChanges this) = [] ↔ contentChanges this = [])
  ∧ replaced <$> head (contentChanges (compressChanges this))
    = replaced <$> head (contentChanges this).
Proof.
  rewrite compressChanges_stored.
  pose proof (compress_loop_replaced (contentChanges this) [] None) as Hsub.
  pose proof (compress_loop_head (contentChanges this) [] None) as Hhead.
  simpl in Hsub, Hhead.
  split; [exact Hsub|]. split; [|split; [|exact Hhead]].
  - apply sublist_length in Hsub. by rewrite !length_fmap in Hsub.
  - split.
    + intros Hnil. rewrite Hnil in Hhead.
      by destruct (contentChanges this).
    + intros Hnil. by rewrite Hnil.
Qed.

End ContentChangeMore.

(** *** Replaying content changes *)

Section ReplayFacts.
Import DocumentContentChangeAction.
Variable laterOf : Position → Position → Position.
Implicit Types (position : Position) (change : Change).

Lemma isBefore_irrefl position : PositionApi.isBefore position position = false.
Proof.
  unfold PositionApi.isBefore. rewrite !Z.ltb_irrefl, Z.eqb_refl. done.
Qed.

Lemma isEqual_refl position : PositionApi.isEqual position position = true.
Proof. unfold PositionApi.isEqual. by rewrite !Z.eqb_refl. Qed.

Lemma isEqual_eq (a b : Position) : PositionApi.isEqual a b = true ↔ a = b.
Proof.
  unfold PositionApi.isEqual. destruct a as [la ca], b as [lb cb]. simpl.
  rewrite andb_true_iff, !Z.eqb_eq. split; [by intros [-> ->]|].
  intros Heq. by simplify_eq.
Qed.

(** Seen from the left boundary itself, [translate] moves nothing. *)
Lemma translate_same boundary diffPos :
  0 <= vscode.line diffPos → 0 <= vscode.character diffPos →
  translate boundary boundary diffPos = diffPos.
Proof.
  intros Hl Hc. unfold translate. destruct boundary as [lb cb].
  destruct diffPos as [l c]. cbn [vscode.line vscode.character] in *.
  case_match; f_equal; lia.
Qed.

(** The left boundary itself lands on the replay position. *)
Lemma translate_boundary boundary position :
  0 <= vscode.line position → 0 <= vscode.character position →
  translate boundary position boundary = position.
Proof.
  intros Hl Hc. unfold translate. destruct position as [l c].
  rewrite Z.sub_diag. cbn [vscode.line vscode.character Z.eqb] in *.
  f_equal; lia.
Qed.

(** [exec] on a single stored change that does not start above the left
    boundary. *)
Lemma exec_single position change :
  let boundary :=
    if bool_decide (vscode.text change = EmptyString)
       && (vscode.rangeLength change =? 1)
    then vscode.end_ (vscode.range change)
    else vscode.start (vscode.range change) in
  let replaceRange :=
    PositionApi.newRange
      (translate boundary position (vscode.start (vscode.range change)))
      (translate boundary position (vscode.end_ (vscode.range change))) in
  (vscode.line (vscode.start (vscode.range change)) <? vscode.line boundary)
  = false →
  PositionApi.isAfter (vscode.start replaceRange) position = false →
  exec laterOf position (mk [change])
  = Some [if PositionApi.isEqual (vscode.start replaceRange)
               (vscode.end_ replaceRange)
          then InsertText (vscode.start replaceRange) (vscode.text change)
          else ReplaceText replaceRange (vscode.text change)].
Proof.
  intros boundary replaceRange Hline Hafter.
  unfold exec. cbn [contentChanges exec_loop]. fold boundary.
  rewrite Hline. fold replaceRange. rewrite Hafter. done.
Qed.

(** X5.  Typed text is replayed at the cursor: a first change with an empty
    range followed by insertions only, replayed at a position, asks for
    one insertion of the whole text at that position. *)
Theorem typed_text_replays_at_cursor position first changes :
  0 <= vscode.line position → 0 <= vscode.character position →
  vscode.start (vscode.range first) = vscode.end_ (vscode.range first) →
  Forall (λ change, vscode.rangeLength change = 0) changes →
  exec laterOf position (addChanges (first :: changes) new)
  = Some [InsertText position
            (vscode.text first +:+ foldr String.append EmptyString
                                     (vscode.text <$> changes))].
Proof.
  intros Hl Hc Hempty Hall.
  pose proof (addChanges_insertions first changes Hall) as Hstored.
  destruct (addChanges (first :: changes) new) as [stored].
  simpl in Hstored. subst stored.
  rewrite exec_single; cbn [vscode.range vscode.text vscode.rangeLength].
  - rewrite <- Hempty.
    assert (Hb : (if bool_decide
                       (vscode.text first +:+ foldr String.append EmptyString
                          (vscode.text <$> changes) = EmptyString)
                     && (vscode.rangeLength first =? 1)
                  then vscode.start (vscode.range first)
                  else vscode.start (vscode.range first))
                 = vscode.start (vscode.range first)) by (by case_match).
    rewrite Hb, translate_boundary by done.
    unfold PositionApi.newRange. rewrite isBefore_irrefl.
    cbn [vscode.start vscode.end_]. by rewrite isEqual_refl.
  - rewrite <- Hempty. case_match; apply Z.ltb_irrefl.
  - rewrite <- Hempty.
    assert (Hb : (if bool_decide
                       (vscode.text first +:+ foldr String.append EmptyString
                          (vscode.text <$> changes) = EmptyString)
                     && (vscode.rangeLength first =? 1)
                  then vscode.start (vscode.range first)
                  else vscode.start (vscode.range first))
                 = vscode.start (vscode.range first)) by (by case_match).
    rewrite Hb, translate_boundary by done.
    unfold PositionApi.newRange. rewrite isBefore_irrefl.
    cbn [vscode.start]. unfold PositionApi.isAfter. apply isBefore_irrefl.
Qed.


(** X7.  A stored change that replaces part of one line, replayed at a
    position, replaces as many characters from that position on (or
    inserts there when it replaced none). *)
Theorem replacement_replays_with_its_width position l c1 c2 offset len text :
  0 <= vscode.line position → 0 <= vscode.character position →
  c1 <= c2 →
  ¬ (text = EmptyString ∧ len = 1) →
  exec laterOf position
    (mk [vscode.mkChange
           (vscode.mkRange (vscode.mkPosition l c1) (vscode.mkPosition l c2))
           offset len text])
  = Some [if decide (c1 = c2) then InsertText position text
          else ReplaceText
                 (vscode.mkRange position
                    (vscode.mkPosition (vscode.line position)
                       (vscode.character position + c2 - c1)))
                 text].
Proof.
  intros Hl Hc Hle Hform. destruct position as [pl pc]. simpl in Hl, Hc.
  assert (Hb : bool_decide (text = EmptyString) && (len =? 1) = false).
  { apply andb_false_iff.
    destruct (decide (text = EmptyString)) as [Ht|Ht].
    - right. apply Z.eqb_neq. intros Hlen. by apply Hform.
    - left. by apply bool_decide_eq_false_2. }
  assert (Htr : ∀ d,
    translate (vscode.mkPosition l c1) (vscode.mkPosition pl pc)
      (vscode.mkPosition l d)
    = vscode.mkPosition pl (Z.max (pc + d - c1) 0)).
  { intros d. unfold translate. cbn [vscode.line vscode.character].
    rewrite Z.sub_diag. cbn [Z.eqb]. f_equal. lia. }
  rewrite exec_single;
    cbn [vscode.range vscode.text vscode.rangeLength vscode.start
         vscode.end_];
    rewrite ?Hb, ?Htr.
  - replace (Z.max (pc + c1 - c1) 0) with pc by lia.
    replace (Z.max (pc + c2 - c1) 0) with (pc + c2 - c1) by lia.
    unfold PositionApi.newRange, PositionApi.isBefore, PositionApi.isEqual.
    cbn [vscode.line vscode.character].
    rewrite Z.ltb_irrefl, Z.eqb_refl.
    assert ((pc + c2 - c1 <? pc) = false) as -> by lia.
    cbn [orb andb vscode.start vscode.end_ vscode.line vscode.character].
    rewrite Z.eqb_refl. cbn [andb].
    destruct (decide (c1 = c2)) as [->|Hne].
    + replace (pc + c2 - c2) with pc by lia. by rewrite Z.eqb_refl.
    + assert ((pc =? pc + c2 - c1) = false) as -> by lia. done.
  - apply Z.ltb_irrefl.
  - replace (Z.max (pc + c1 - c1) 0) with pc by lia.
    replace (Z.max (pc + c2 - c1) 0) with (pc + c2 - c1) by lia.
    unfold PositionApi.newRange, PositionApi.isAfter, PositionApi.isBefore.
    cbn [vscode.line vscode.character].
    rewrite Z.ltb_irrefl, Z.eqb_refl.
    assert ((pc + c2 - c1 <? pc) = false) as -> by lia.
    cbn [orb andb vscode.start vscode.line vscode.character].
    by rewrite !Z.ltb_irrefl, Z.eqb_refl.
Qed.

End ReplayFacts.

(** *** Counts without an operator, and the delete key *)

(** A digit key with no operator count pending appends the digit. *)
Lemma handleKey_digit_plain d vimState :
  0 <= d <= 9 →
  operatorCount (recordedState vimState) <= 0 →
  ModeHandler.handleKey (digitKey d) vimState
  = Some (with_recordedState
            (with_count (js_add (js_mul (count (recordedState vimState)) 10) d)
               (with_actionsRun
                  (actionsRun (recordedState vimState)
                   ++ [CommandNumber.new (digitKey d)])
                  (recordedState vimState)))
            vimState).
Proof.
  intros Hd Ho.
  pose proof (parseInt_digitKey d Hd) as Hp.
  unfold ModeHandler.handleKey. rewrite Hp.
  unfold ModeHandler.runNumber.
  rewrite (CommandNumber_exec_rule _ _ d) by exact Hp.
  unfold ModeHandler.appendAction.
  cbn [recordedState with_recordedState with_actionsRun actionsRun
       operatorCount count with_count].
  destruct (Z.ltb_spec 0 (operatorCount (recordedState vimState))); [lia|].
  done.
Qed.

(** Appending a digit to a count within the safe integers is exact. *)
Lemma js_append_digit_safe n d :
  0 <= n → 0 <= d <= 9 → n * 10 + d <= MAX_SAFE_INTEGER →
  js_add (js_mul n 10) d = n * 10 + d.
Proof.
  intros Hn Hd Hsafe.
  rewrite js_mul_safe, js_add_safe; unfold MAX_SAFE_INTEGER in *; lia.
Qed.

(** The number a run of digits spells after [n] is not below [n]. *)
Lemma foldl_digits_ge ds n :
  0 <= n → Forall (λ d, 0 <= d <= 9) ds →
  n <= foldl (λ n d, n * 10 + d) n ds.
Proof.
  intros Hn Hds. revert n Hn.
  induction Hds as [|d ds Hd Hds IH]; intros n Hn; [done|].
  cbn [foldl]. etransitivity; [|apply IH]; lia.
Qed.

Lemma handleKeys_digits_plain ds vimState :
  operatorCount (recordedState vimState) <= 0 →
  0 <= count (recordedState vimState) →
  Forall (λ d, 0 <= d <= 9) ds →
  foldl (λ n d, n * 10 + d) (count (recordedState vimState)) ds
  <= MAX_SAFE_INTEGER →
  ∃ vimState',
    ModeHandler.handleKeys (digitKey <$> ds) vimState = Some vimState'
    ∧ count (recordedState vimState')
      = foldl (λ n d, n * 10 + d) (count (recordedState vimState)) ds
    ∧ operatorCount (recordedState vimState')
      = operatorCount (recordedState vimState)
    ∧ 0 <= count (recordedState vimState').
Proof.
  intros Ho Hc Hds. revert vimState Ho Hc.
  induction Hds as [|d ds Hd Hds IH]; intros vimState Ho Hc Hsafe.
  - exists vimState. done.
  - cbn [foldl] in Hsafe.
    pose proof (foldl_digits_ge ds (count (recordedState vimState) * 10 + d)
                  ltac:(lia) Hds) as Hge.
    rewrite fmap_cons, handleKeys_cons, handleKey_digit_plain by done.
    rewrite js_append_digit_safe by lia.
    cbn [mbind option_bind].
    destruct (IH (with_recordedState
                    (with_count (count (recordedState vimState) * 10 + d)
                       (with_actionsRun
                          (actionsRun (recordedState vimState)
                           ++ [CommandNumber.new (digitKey d)])
                          (recordedState vimState)))
                    vimState))
      as (vimState' & Hrun & Hcount & Hop & Hnonneg);
      [done|simpl; lia|exact Hsafe|].
    exists vimState'. done.
Qed.

(** X8.  With no operator count pending, a run of digit keys leaves the
    count they spell in decimal, appended to the count there was, as long
    as that count is within the safe integers; the operator count is left
    alone and the count stays non-negative. *)
Theorem digits_spell_the_count ds vimState :
  operatorCount (recordedState vimState) <= 0 →
  0 <= count (recordedState vimState) →
  Forall (λ d, 0 <= d <= 9) ds →
  foldl (λ n d, n * 10 + d) (count (recordedState vimState)) ds
  <= MAX_SAFE_INTEGER →
  ∃ vimState',
    ModeHandler.handleKeys (digitKey <$> ds) vimState = Some vimState'
    ∧ count (recordedState vimState')
      = foldl (λ n d, n * 10 + d) (count (recordedState vimState)) ds
    ∧ operatorCount (recordedState vimState')
      = operatorCount (recordedState vimState)
    ∧ 0 <= count (recordedState vimState').
Proof. apply handleKeys_digits_plain. Qed.

Lemma digits_spell_the_count_witness :
  count ∘ recordedState
    <$> ModeHandler.handleKeys ["4"; "0"; "7"]%string
          (new_VimState Sample.editor)
  = Some 407.
Proof.
  destruct (digits_spell_the_count [4; 0; 7] (new_VimState Sample.editor))
    as (vimState' & Hrun & Hcount & _).
  - simpl. lia.
  - simpl. lia.
  - repeat constructor; lia.
  - vm_compute. discriminate.
  - change (digitKey <$> [4; 0; 7]) with ["4"; "0"; "7"]%string in Hrun.
    rewrite Hrun. simpl. f_equal. exact Hcount.
Defined.

(** [parseInt] reads back what [toString] prints for a positive number. *)
Lemma pretty_N_char_digitKey (r : N) :
  (r < 10)%N →
  String (pretty_N_char r) EmptyString = digitKey (Z.of_N r).
Proof.
  intros Hlt.
  assert (r = 0 ∨ r = 1 ∨ r = 2 ∨ r = 3 ∨ r = 4 ∨ r = 5 ∨ r = 6 ∨ r = 7
          ∨ r = 8 ∨ r = 9)%N as Hcases by lia.
  repeat (destruct Hcases as [->|Hcases]; [reflexivity|]).
  by rewrite Hcases.
Qed.

(** The characters [toString] prints for a positive number are the digit
    keys that spell it. *)
Lemma pretty_N_go_digits (x : N) s :
  (0 < x)%N →
  ∃ ds, Forall (λ d, 0 <= d <= 9) ds
        ∧ foldl (λ n d, n * 10 + d) 0 ds = Z.of_N x
        ∧ (λ c, String c EmptyString)
            <$> list_ascii_of_string (pretty_N_go x s)
          = (digitKey <$> ds)
            ++ ((λ c, String c EmptyString) <$> list_ascii_of_string s).
Proof.
  revert s. induction (N.lt_wf_0 x) as [x _ IH]; intros s Hx.
  rewrite pretty_N_go_step by done.
  assert (x = 10 * (x `div` 10) + x `mod` 10)%N as Hdm
    by (apply N.div_mod; lia).
  assert (x `mod` 10 < 10)%N as Hmod by (apply N.mod_lt; lia).
  destruct (decide (x `div` 10 = 0)%N) as [Hdiv|Hdiv].
  - exists [Z.of_N (x `mod` 10)].
    rewrite Hdiv, pretty_N_go_0. split; [|split].
    + constructor; [lia|constructor].
    + simpl. rewrite Hdiv in Hdm. lia.
    + simpl. by rewrite pretty_N_char_digitKey by lia.
  - destruct (IH (x `div` 10)%N) with
      (s := String (pretty_N_char (x `mod` 10)) s)
      as (ds & Hds & Hfold & Hkeys); [apply N.div_lt; lia|lia|].
    exists (ds ++ [Z.of_N (x `mod` 10)]). split; [|split].
    + apply Forall_app. split; [done|].
      constructor; [|constructor].
      clear - Hmod. set (r := (x `mod` 10)%N) in *. clearbody r.
      cbv beta. lia.
    + rewrite foldl_app. simpl. rewrite Hfold. lia.
    + rewrite Hkeys. simpl. rewrite fmap_app, <- app_assoc. simpl.
      by rewrite pretty_N_char_digitKey by lia.
Qed.

Lemma toString_split_digits (n : Z) :
  0 < n →
  ∃ ds, Forall (λ d, 0 <= d <= 9) ds
        ∧ foldl (λ n d, n * 10 + d) 0 ds = n
        ∧ ActionDeleteCharWithDeleteKey.toString_split n = digitKey <$> ds.
Proof.
  intros Hn. destruct n as [|p|p]; [lia| |lia].
  destruct (pretty_N_go_digits (N.pos p) EmptyString) as (ds & Hds & Hf & Hk);
    [lia|].
  exists ds. split; [done|]. split; [done|].
  unfold ActionDeleteCharWithDeleteKey.toString_split.
  change (pretty (Z.pos p)) with (pretty_N_go (N.pos p) EmptyString).
  rewrite Hk. simpl. by rewrite app_nil_r.
Qed.

Section DeleteKeyFacts.
Variable ActionDeleteChar_execCount : VimState → VimState.

Local Abbreviation execCount :=
  (ActionDeleteCharWithDeleteKey.execCount ActionDeleteChar_execCount).

(** X9.  With a count pending that is within the safe integers, the
    delete key removes the count's last digit instead of deleting text:
    the count is divided by ten, the action stays incomplete, and the keys
    left for display are the digit keys that spell the new count (none
    when it is zero). *)
Theorem delete_key_drops_last_digit this vimState keys ed :
  0 < count (recordedState vimState) →
  count (recordedState vimState) <= MAX_SAFE_INTEGER →
  ∃ keys',
    execCount this vimState keys
    = (mkAction (actionClass this) (keysPressed this) false,
       with_recordedState
         (with_count (count (recordedState vimState) / 10)
            (recordedState vimState)) vimState,
       keys')
    ∧ (count (recordedState vimState) < 10 → keys' = [])
    ∧ (10 <= count (recordedState vimState) →
       count ∘ recordedState
         <$> ModeHandler.handleKeys keys' (new_VimState ed)
       = Some (count (recordedState vimState) / 10)).
Proof.
  intros Hc Hsafe. unfold ActionDeleteCharWithDeleteKey.execCount.
  assert ((count (recordedState vimState) =? 0) = false) as -> by lia.
  cbn [negb count with_count].
  eexists. split; [reflexivity|]. split.
  - intros Hlt. rewrite Z.div_small by lia. done.
  - intros Hge.
    assert (0 < count (recordedState vimState) / 10) as Hpos
      by (apply Z.div_str_pos; lia).
    assert (count (recordedState vimState) / 10
            <= count (recordedState vimState)) as Hle
      by (apply Z.div_le_upper_bound; lia).
    assert ((0 <? count (recordedState vimState) / 10) = true) as ->
      by lia.
    destruct (toString_split_digits _ Hpos) as (ds & Hds & Hfold & ->).
    destruct (handleKeys_digits_plain ds (new_VimState ed))
      as (vimState' & Hrun & Hcount & _);
      [simpl; lia|simpl; lia|done|cbn [new_VimState recordedState
         new_RecordedState count]; lia|].
    rewrite Hrun. simpl. f_equal. by rewrite Hcount.
Qed.

(** X10.  Typing a digit and pressing the delete key restores the count
    there was, when no operator count is pending and the count with the
    digit is within the safe integers. *)
Theorem digit_then_delete_restores_count d this vimState keys :
  0 <= d <= 9 →
  operatorCount (recordedState vimState) <= 0 →
  0 <= count (recordedState vimState) →
  count (recordedState vimState) * 10 + d ≠ 0 →
  count (recordedState vimState) * 10 + d <= MAX_SAFE_INTEGER →
  ∃ vimState1,
    ModeHandler.handleKey (digitKey d) vimState = Some vimState1
    ∧ count (recordedState (execCount this vimState1 keys).1.2)
      = count (recordedState vimState).
Proof.
  intros Hd Ho Hc Hnz Hsafe.
  rewrite handleKey_digit_plain by done.
  rewrite js_append_digit_safe by done.
  eexists. split; [reflexivity|].
  unfold ActionDeleteCharWithDeleteKey.execCount.
  cbn [recordedState with_recordedState count with_count with_actionsRun].
  assert ((count (recordedState vimState) * 10 + d =? 0) = false) as ->
    by lia.
  cbn [negb fst snd recordedState with_recordedState count with_count].
  rewrite Z.div_add_l by lia.
  rewrite Z.div_small by lia. lia.
Qed.

End DeleteKeyFacts.

(** *** When the insert commands apply *)

Lemma previousActionsNumbers_forallb actions :
  CommandInsertAtCursor.previousActionsNumbers actions
  = forallb (λ action, instanceof (Some action) Tag.CommandNumber) actions.
Proof.
  induction actions as [|a actions IH]; [done|].
  simpl. destruct (bool_decide _); simpl; [exact IH|done].
Qed.

Lemma forallb_numbers actions :
  forallb (λ action, instanceof (Some action) Tag.CommandNumber) actions
  = true
  ↔ Forall (λ action, actionClass action = Tag.CommandNumber) actions.
Proof.
  rewrite forallb_forall, Forall_forall. unfold instanceof.
  split; intros Hall a Ha.
  - apply list_elem_of_In, Hall in Ha. by apply bool_decide_eq_true_1 in Ha.
  - apply bool_decide_eq_true_2, Hall. by apply list_elem_of_In.
Qed.

(** X11.  The insert command [i] (its hand-written loop) and the append
    command [a] (its [every]) apply in exactly the same states: when the
    base test passes and every action run so far in the command is a count
    digit.  After an operator or any other action, neither applies. *)
Theorem insert_commands_apply_alike
    (super_could : VimState → list string → bool) vimState keysPressed :
  CommandInsertAtCursor.doesActionApply super_could vimState keysPressed
  = CommandInsertAfterCursor.doesActionApply super_could vimState keysPressed
  ∧ (CommandInsertAtCursor.doesActionApply super_could vimState keysPressed
     = true
     ↔ super_could vimState keysPressed = true
       ∧ Forall (λ action, actionClass action = Tag.CommandNumber)
           (actionsRun (recordedState vimState))).
Proof.
  unfold CommandInsertAtCursor.doesActionApply,
    CommandInsertAfterCursor.doesActionApply.
  rewrite previousActionsNumbers_forallb.
  rewrite <- forallb_numbers.
  destruct (forallb _ (actionsRun (recordedState vimState))) eqn:Hall.
  - rewrite orb_true_r. cbn [negb]. split; [done|]. tauto.
  - cbn [negb]. rewrite orb_false_r.
    assert (bool_decide (length (actionsRun (recordedState vimState)) = 0%nat)
            = false) as ->.
    { apply bool_decide_eq_false_2. intros Hlen.
      apply length_zero_iff_nil in Hlen. rewrite Hlen in Hall. done. }
    split; [done|]. split; [done|]. intros [_ ?]. done.
Qed.

(** *** More on macros *)

Lemma CommandRecordMacro_exec_macro registerKey vimState
    (registers : Register.table) vimState' registers' :
  CommandRecordMacro.exec (CommandRecordMacro.new registerKey)
    vimState registers = Some (vimState', registers') →
  macro vimState'
  = Some (with_registerName (toLocaleLowerCase registerKey)
            new_RecordedState).
Proof.
  unfold CommandRecordMacro.exec, CommandRecordMacro.new.
  cbn [keysPressed lookup list_lookup mbind option_bind].
  intros Hexec. case_match; by simplify_eq.
Qed.

(** X12.  The quit key of a recording applies only while a macro is being
    recorded: not on a fresh state, always (if the base test passes) after
    a recording was started, and no longer once it has been quit. *)
Theorem quit_applies_only_while_recording
    (super_does : VimState → list string → bool) keysPressed :
  (∀ ed,
      CommandQuitRecordMacro.doesActionApply super_does (new_VimState ed)
        keysPressed = false)
  ∧ (∀ registerKey vimState (registers : Register.table)
       vimState' registers',
        CommandRecordMacro.exec (CommandRecordMacro.new registerKey)
          vimState registers = Some (vimState', registers') →
        CommandQuitRecordMacro.doesActionApply super_does vimState'
          keysPressed = super_does vimState' keysPressed)
  ∧ (∀ vimState (registers : Register.table) vimState' registers',
        CommandQuitRecordMacro.exec vimState registers
        = Some (vimState', registers') →
        CommandQuitRecordMacro.doesActionApply super_does vimState'
          keysPressed = false).
Proof.
  unfold CommandQuitRecordMacro.doesActionApply. split; [|split].
  - intros ed. simpl. by rewrite andb_false_r.
  - intros registerKey vimState registers vimState' registers' Hexec.
    pose proof (CommandRecordMacro_exec_macro _ _ _ _ _ Hexec) as Hm.
    rewrite bool_decide_eq_true_2 by (by rewrite Hm).
    by rewrite andb_true_r.
  - intros vimState registers vimState' registers' Hexec.
    unfold CommandQuitRecordMacro.exec in Hexec.
    destruct (macro vimState) as [m|]; [|done]. simpl in Hexec.
    injection Hexec as <- _.
    rewrite bool_decide_eq_false_2 by (intros Hne; by apply Hne).
    by rewrite andb_false_r.
Qed.

(** What a whole recording does to the table, case by case. *)
Lemma recordMacro_registers registerKey actions vimState
    (registers : Register.table) :
  ∃ vimState',
    recordMacro registerKey actions vimState registers
    = Some (vimState',
            if negb (test_upper registerKey)
               || negb (Register.has (toLocaleLowerCase registerKey)
                          registers)
            then <[toLocaleLowerCase registerKey :=
                     MacroContent
                       (mkRecordedState 0 0 actions
                          (toLocaleLowerCase registerKey))]> registers
            else match registers !! toLocaleLowerCase registerKey with
                 | Some (MacroContent existing) =>
                     <[toLocaleLowerCase registerKey :=
                         MacroContent
                           (with_actionsRun
                              (actionsRun existing ++ actions) existing)]>
                       registers
                 | _ => registers
                 end).
Proof.
  unfold recordMacro, CommandRecordMacro.exec, CommandRecordMacro.new.
  cbn [keysPressed lookup list_lookup mbind option_bind].
  destruct (negb (test_upper registerKey)
            || negb (Register.has (toLocaleLowerCase registerKey) registers)).
  - cbn [mbind option_bind].
    erewrite recordActions_macro by reflexivity.
    unfold CommandQuitRecordMacro.exec, Register.put, Register.get.
    cbn [macro with_macro mbind option_bind registerName with_registerName
         new_RecordedState actionsRun with_actionsRun app recordedState
         with_recordedState].
    rewrite lookup_insert_eq, insert_insert_eq.
    eexists. reflexivity.
  - cbn [mbind option_bind].
    erewrite recordActions_macro by reflexivity.
    unfold CommandQuitRecordMacro.exec, Register.get.
    cbn [macro with_macro mbind option_bind registerName with_registerName
         new_RecordedState actionsRun with_actionsRun app].
    destruct (registers !! toLocaleLowerCase registerKey)
      as [[text mode|existing]|]; eexists; reflexivity.
Qed.

(** X13.  A recording started with an upper-case key whose register does
    not exist creates the lower-case register with exactly the recorded
    actions. *)
Theorem upper_case_key_creates_register registerKey actions vimState
    (registers : Register.table) :
  test_upper registerKey = true →
  registers !! toLocaleLowerCase registerKey = None →
  ∃ vimState',
    recordMacro registerKey actions vimState registers
    = Some (vimState',
            <[toLocaleLowerCase registerKey :=
                MacroContent
                  (mkRecordedState 0 0 actions
                     (toLocaleLowerCase registerKey))]> registers).
Proof.
  intros Hup Hnone.
  destruct (recordMacro_registers registerKey actions vimState registers)
    as (vimState' & Hrun).
  exists vimState'. rewrite Hrun.
  assert (Register.has (toLocaleLowerCase registerKey) registers = false)
    as Hhas.
  { unfold Register.has. apply bool_decide_eq_false_2.
    rewrite Hnone. by intros [? ?]. }
  by rewrite Hhas, orb_true_r.
Qed.

(** X14.  A recording started with an upper-case key whose register holds
    text leaves the register table as it was: the recorded actions are
    stored nowhere. *)
Theorem upper_case_key_on_text_register_records_nothing
    registerKey actions vimState (registers : Register.table) text mode :
  test_upper registerKey = true →
  registers !! toLocaleLowerCase registerKey = Some (TextContent text mode) →
  ∃ vimState',
    recordMacro registerKey actions vimState registers
    = Some (vimState', registers)
    ∧ macro vimState' = None.
Proof.
  intros Hup Htext.
  unfold recordMacro, CommandRecordMacro.exec, CommandRecordMacro.new.
  cbn [keysPressed lookup list_lookup mbind option_bind].
  rewrite Hup, (Register_has_true _ _ _ Htext).
  cbn [negb orb mbind option_bind].
  erewrite recordActions_macro by reflexivity.
  unfold CommandQuitRecordMacro.exec, Register.get.
  cbn [macro with_macro mbind option_bind registerName with_registerName
       new_RecordedState actionsRun with_actionsRun app].
  rewrite Htext. eexists. split; reflexivity.
Qed.

Lemma recordMacro_one_register registerKey actions vimState
    (registers : Register.table) :
  ∃ vimState' (registers' : Register.table),
    recordMacro registerKey actions vimState registers
    = Some (vimState', registers')
    ∧ (∀ other, other ≠ toLocaleLowerCase registerKey →
                registers' !! other = registers !! other)
    ∧ Register.has (toLocaleLowerCase registerKey) registers' = true.
Proof.
  destruct (recordMacro_registers registerKey actions vimState registers)
    as (vimState' & Hrun).
  eexists _, _. split; [exact Hrun|].
  destruct (negb (test_upper registerKey)
            || negb (Register.has _ registers)) eqn:Hput.
  - split.
    + intros other Hother. by rewrite lookup_insert_ne.
    + eapply Register_has_true. apply lookup_insert_eq.
  - apply orb_false_iff in Hput as [_ Hhas].
    apply negb_false_iff in Hhas.
    assert (is_Some (registers !! toLocaleLowerCase registerKey)) as [c Hc]
      by (by apply bool_decide_eq_true_1 in Hhas).
    rewrite Hc. destruct c as [text mode|existing].
    + split; [done|]. by eapply Register_has_true.
    + split.
      * intros other Hother. by rewrite lookup_insert_ne.
      * eapply Register_has_true. apply lookup_insert_eq.
Qed.

(** X15.  Whatever the key, a recording leaves every register other than
    the lower-cased key's untouched, and afterwards that register
    exists. *)
Theorem recording_touches_one_register registerKey actions vimState
    (registers : Register.table) :
  ∃ vimState' (registers' : Register.table),
    recordMacro registerKey actions vimState registers
    = Some (vimState', registers')
    ∧ (∀ other, other ≠ toLocaleLowerCase registerKey →
                registers' !! other = registers !! other)
    ∧ Register.has (toLocaleLowerCase registerKey) registers' = true.
Proof. apply recordMacro_one_register. Qed.

Section ExecuteMacroFacts.
Variable isValidRegister : string → bool.

(** X16.  Executing a register that does not exist asks for nothing;
    after a recording into a key, executing that key, in either case of
    the letter, asks for one replay of the lower-case register. *)
Theorem execute_replays_what_was_recorded :
  (∀ key (registers : Register.table),
      registers !! toLocaleLowerCase key = None →
      snd <$> CommandExecuteMacro.exec isValidRegister
                (CommandExecuteMacro.new key) registers
      = Some [])
  ∧ (∀ registerKey key actions vimState (registers : Register.table)
       vimState' registers',
        recordMacro registerKey actions vimState registers
        = Some (vimState', registers') →
        toLocaleLowerCase key = toLocaleLowerCase registerKey →
        snd <$> CommandExecuteMacro.exec isValidRegister
                  (CommandExecuteMacro.new key) registers'
        = Some [MacroReplay (toLocaleLowerCase registerKey)
                  "contentChange"]).
Proof.
  split.
  - intros key registers Hnone.
    assert (Register.has (toLocaleLowerCase key) registers = false) as Hhas.
    { unfold Register.has. apply bool_decide_eq_false_2.
      rewrite Hnone. by intros [? ?]. }
    unfold CommandExecuteMacro.exec, CommandExecuteMacro.new.
    cbn [keysPressed lookup list_lookup mbind option_bind].
    by rewrite Hhas.
  - intros registerKey key actions vimState registers vimState' registers'
      Hrun Hkey.
    destruct (recordMacro_one_register registerKey actions vimState
                registers) as (vs & regs & Hrun' & _ & Hhas).
    rewrite Hrun in Hrun'. simplify_eq.
    unfold CommandExecuteMacro.exec, CommandExecuteMacro.new.
    cbn [keysPressed lookup list_lookup mbind option_bind].
    rewrite Hkey, Hhas. done.
Qed.

End ExecuteMacroFacts.

(** *** More on the cursor set *)

Section CursorMore.
Variable Position_isValid : Position → vscode.TextEditor → bool.
Variable Cursor_isValid : Cursor → vscode.TextEditor → bool.
Variable Cursor_toString : Cursor → string.

(** X17.  Setting the stop position and reading it back gives the value
    set, valid or not; the start of the first cursor, the other cursors and
    their number stay as they were.  Likewise for the start position. *)
Theorem cursor_position_set_then_get value this this' :
  (set_cursorStopPosition Position_isValid value this = Some this' →
   get_cursorStopPosition this' = Some value
   ∧ get_cursorStartPosition this' = get_cursorStartPosition this
   ∧ drop 1 (cursors this') = drop 1 (cursors this)
   ∧ length (cursors this') = length (cursors this))
  ∧ (set_cursorStartPosition Position_isValid value this = Some this' →
     get_cursorStartPosition this' = Some value
     ∧ get_cursorStopPosition this' = get_cursorStopPosition this
     ∧ drop 1 (cursors this') = drop 1 (cursors this)
     ∧ length (cursors this') = length (cursors this)).
Proof.
  unfold get_cursorStopPosition, get_cursorStartPosition, cursors.
  split; intros Hset.
  - destruct (_cursors this) as [|c0 cs] eqn:Hcs.
    + unfold set_cursorStopPosition, cursors in Hset.
      destruct (negb _) in Hset; simpl in Hset; rewrite Hcs in Hset; done.
    + rewrite (set_cursorStopPosition_cons _ _ _ _ _ Hcs) in Hset.
      injection Hset as <-. done.
  - destruct (_cursors this) as [|c0 cs] eqn:Hcs.
    + unfold set_cursorStartPosition, cursors in Hset.
      destruct (negb _) in Hset; simpl in Hset; rewrite Hcs in Hset; done.
    + rewrite (set_cursorStartPosition_cons _ _ _ _ _ Hcs) in Hset.
      injection Hset as <-. done.
Qed.

Lemma dedupFirstSeen_NoDup_id l : NoDup l → dedupFirstSeen l = l.
Proof.
  induction 1 as [|c l Hc Hnd IH]; [done|].
  simpl. rewrite IH. f_equal.
  clear IH Hnd. induction l as [|y l IHl]; [done|].
  apply not_elem_of_cons in Hc as [Hne Hc].
  rewrite filter_cons_True by done. by rewrite IHl.
Qed.

Local Abbreviation set_cursors := (set_cursors Cursor_isValid Cursor_toString).

(** X18.  A list without duplicates is stored as it is, so assigning the
    stored cursors back changes nothing in them. *)
Theorem set_cursors_keeps_distinct_cursors :
  Inj (=) (=) Cursor_toString →
  (∀ value this,
      value ≠ [] → NoDup value → _cursors (set_cursors value this) = value)
  ∧ (∀ value this this',
        value ≠ [] →
        _cursors (set_cursors (cursors (set_cursors value this)) this')
        = _cursors (set_cursors value this)).
Proof.
  intros Hinj. split.
  - intros value this Hne Hnd.
    rewrite (set_cursors_dedup _ _ Hinj) by done.
    by apply dedupFirstSeen_NoDup_id.
  - intros value this this' Hne. unfold cursors.
    rewrite !(set_cursors_dedup _ _ Hinj value) by done.
    rewrite (set_cursors_dedup _ _ Hinj).
    + apply dedupFirstSeen_NoDup_id, dedupFirstSeen_NoDup.
    + by destruct value.
Qed.

(** X19.  After a list is assigned, there are multiple cursors exactly
    when the list held two different cursors. *)
Theorem isMultiCursor_after_set_cursors value this :
  Inj (=) (=) Cursor_toString →
  value ≠ [] →
  (isMultiCursor (set_cursors value this) = true
   ↔ ∃ a b, a ∈ value ∧ b ∈ value ∧ a ≠ b).
Proof.
  intros Hinj Hne. unfold isMultiCursor.
  rewrite (set_cursors_dedup _ _ Hinj) by done.
  rewrite bool_decide_eq_true.
  destruct value as [|c value]; [done|]. simpl. split.
  - intros Hlen.
    destruct (filter (λ x, x ≠ c) (dedupFirstSeen value)) as [|b rest] eqn:Hf;
      [simpl in Hlen; lia|].
    assert (b ∈ filter (λ x, x ≠ c) (dedupFirstSeen value)) as Hb
      by (rewrite Hf; apply list_elem_of_here).
    apply list_elem_of_filter in Hb as [Hbc Hb].
    apply (proj1 (dedupFirstSeen_elem_of Cursor_isValid Cursor_toString
                    _ _)) in Hb.
    exists c, b. rewrite !elem_of_cons. split; [by left|].
    split; [by right|]. by intros ->.
  - intros (a & b & Ha & Hb & Hab).
    assert (∃ x, x ∈ value ∧ x ≠ c) as (x & Hx & Hxc).
    { apply elem_of_cons in Ha as [->|Ha];
        apply elem_of_cons in Hb as [->|Hb].
      - done.
      - exists b. split; [done|]. by intros ->.
      - exists a. done.
      - destruct (decide (a = c)) as [->|Hac]; [exists b|exists a]; done. }
    assert (x ∈ filter (λ x, x ≠ c) (dedupFirstSeen value)) as Hin.
    { apply list_elem_of_filter. split; [done|].
      by apply (proj2 (dedupFirstSeen_elem_of Cursor_isValid
                         Cursor_toString _ _)). }
    destruct (filter (λ x, x ≠ c) (dedupFirstSeen value)); simpl; [|lia].
    by apply elem_of_nil in Hin.
Qed.

End CursorMore.

(** *** More on the sneak markers *)

Section JsMapMore.
Context {V : Type}.
Implicit Types (m : JsMap.t V) (k : string) (v : V).

Lemma JsMap_get_set k k' v m :
  JsMap.get k' (JsMap.set k v m)
  = if decide (k = k') then Some v else JsMap.get k' m.
Proof.
  case_decide as Hk.
  - subst. apply JsMap_get_set_eq.
  - by apply JsMap_get_set_ne.
Qed.

Lemma JsMap_set_length_le k v m :
  (length (JsMap.set k v m) ≤ S (length m))%nat.
Proof.
  induction m as [|[k' v'] m IH]; simpl; [lia|].
  case_decide; simpl; lia.
Qed.
End JsMapMore.

Section SneakMore.
Context {G : Type}.
Variable MG : MarkerGenerator G.
Variable sneakLabelTargets : string.

Local Abbreviation loop := (SneakHighlighterV2.generateMarkers_loop MG).

Lemma generateMarkers_loop_keeps markerGenerator ranges index markers k :
  is_Some (JsMap.get k markers) →
  is_Some (JsMap.get k (loop markerGenerator ranges index markers)).
Proof.
  revert markerGenerator index markers.
  induction ranges as [|range ranges IH];
    intros markerGenerator index markers Hk; simpl; [done|].
  destruct (generateMarker MG markerGenerator index _ false)
    as [[marker|] markerGenerator']; [|done].
  apply IH. rewrite JsMap_get_set. by case_decide.
Qed.

Lemma generateMarkers_loop_size markerGenerator ranges index markers :
  (length markers ≤ length (loop markerGenerator ranges index markers)
   ≤ length markers + length ranges)%nat.
Proof.
  revert markerGenerator index markers.
  induction ranges as [|range ranges IH];
    intros markerGenerator index markers; simpl; [lia|].
  destruct (generateMarker MG markerGenerator index _ false)
    as [[marker|] markerGenerator']; [|lia].
  specialize (IH markerGenerator' (index + 1)
                (JsMap.set (name marker)
                   (vscode.mkRange (vscode.start range) (vscode.start range))
                   markers)).
  pose proof (JsMap_set_length (name marker)
                (vscode.mkRange (vscode.start range) (vscode.start range))
                markers).
  pose proof (JsMap_set_length_le (name marker)
                (vscode.mkRange (vscode.start range) (vscode.start range))
                markers).
  lia.
Qed.

Lemma generateMarkers_loop_ranges markerGenerator ranges index markers k r :
  JsMap.get k (loop markerGenerator ranges index markers) = Some r →
  JsMap.get k markers = Some r
  ∨ ∃ range, range ∈ ranges
             ∧ r = vscode.mkRange (vscode.start range) (vscode.start range).
Proof.
  revert markerGenerator index markers.
  induction ranges as [|range ranges IH];
    intros markerGenerator index markers; simpl; [by left|].
  destruct (generateMarker MG markerGenerator index _ false)
    as [[marker|] markerGenerator']; [|by left].
  intros Hget. apply IH in Hget as [Hget|(range' & Hin & ->)].
  - rewrite JsMap_get_set in Hget. case_decide; [|by left].
    right. exists range. split; [left|]. by simplify_eq.
  - right. exists range'. split; [by right|done].
Qed.

Local Abbreviation generateMarkers :=
  (SneakHighlighterV2.generateMarkers MG sneakLabelTargets).

(** X20.  Generating markers never removes one: the table is not cleared
    between calls, so every marker that answered before still answers, and
    the table grows by at most one entry per range to highlight. *)
Theorem generateMarkers_never_removes_markers this :
  (∀ marker,
      is_Some (SneakHighlighterV2.getMarkPosition marker this) →
      is_Some (SneakHighlighterV2.getMarkPosition marker
                 (generateMarkers this)))
  ∧ (JsMap.size (SneakHighlighterV2.markers this)
     ≤ JsMap.size (SneakHighlighterV2.markers (generateMarkers this))
     ≤ JsMap.size (SneakHighlighterV2.markers this)
       + length (SneakHighlighterV2.rangesToHighlight this))%nat.
Proof.
  split.
  - intros marker. unfold SneakHighlighterV2.getMarkPosition.
    intros Hsome.
    assert (is_Some (JsMap.get marker (SneakHighlighterV2.markers this)))
      as Hget by (destruct (JsMap.get _ _); [by eexists|by destruct Hsome]).
    simpl.
    destruct (generateMarkers_loop_keeps
                (new_MarkerGenerator MG
                   (Z.of_nat (length (SneakHighlighterV2.rangesToHighlight
                                        this))) sneakLabelTargets)
                (SneakHighlighterV2.rangesToHighlight this) 0
                (SneakHighlighterV2.markers this) marker Hget) as [r ->].
    by eexists.
  - apply generateMarkers_loop_size.
Qed.

(** X21.  Starting from an empty table, every position a marker answers
    with is the start of one of the ranges to highlight. *)
Theorem marker_positions_are_range_starts ranges marker position :
  SneakHighlighterV2.getMarkPosition marker
    (generateMarkers (SneakHighlighterV2.mk ranges JsMap.empty))
  = Some position →
  ∃ range, range ∈ ranges ∧ position = vscode.start range.
Proof.
  unfold SneakHighlighterV2.getMarkPosition. simpl.
  destruct (JsMap.get marker _) as [r|] eqn:Hget; [|done].
  intros [= <-].
  apply generateMarkers_loop_ranges in Hget as [Hget|(range & Hin & ->)];
    [done|].
  exists range. split; [done|]. simpl. by destruct (vscode.start range).
Qed.

End SneakMore.

(** *** Joining lines *)

Lemma firstNonWhitespaceIndex_from_blank str i :
  blank str = true → ActionJoin.firstNonWhitespaceIndex_from str i = -1.
Proof.
  revert i. induction str as [|c str IH]; intros i Hb; [done|].
  simpl in *. apply andb_prop in Hb as [Hc Hb]. unfold is_blank in Hc.
  destruct (nat_of_ascii c =? 32)%nat, (nat_of_ascii c =? 9)%nat;
    simpl in *; try done; by apply IH.
Qed.

Lemma firstNonWhitespaceIndex_from_found str i :
  blank str = false →
  ∃ indent c rest,
    str = indent +:+ String c rest
    ∧ blank indent = true ∧ is_blank c = false
    ∧ ActionJoin.firstNonWhitespaceIndex_from str i = i + js_length indent.
Proof.
  revert i. induction str as [|c str IH]; intros i Hb; [done|].
  simpl in Hb. destruct (is_blank c) eqn:Hc.
  - simpl in Hb. destruct (IH (i + 1) Hb) as (indent & c' & rest & -> & Hi & Hc' & Hidx).
    exists (String c indent), c', rest. split; [done|].
    split; [simpl; by rewrite Hc|]. split; [done|].
    simpl. unfold is_blank in Hc.
    assert (negb (nat_of_ascii c =? 32)%nat && negb (nat_of_ascii c =? 9)%nat
            = false) as ->.
    { destruct (nat_of_ascii c =? 32)%nat, (nat_of_ascii c =? 9)%nat; done. }
    rewrite Hidx. unfold js_length. simpl. clear. lia.
  - exists EmptyString, c, str. split; [done|]. split; [done|].
    split; [done|]. simpl. unfold is_blank in Hc.
    apply orb_false_iff in Hc as [-> ->]. simpl. unfold js_length. simpl.
    clear. lia.
Qed.

Lemma substring_all (s : string) : substring 0 (String.length s) s = s.
Proof. induction s as [|c s IH]; [done|]. simpl. by rewrite IH. Qed.

Lemma substring_skip indent s (n : nat) :
  substring (String.length indent) n (indent +:+ s) = substring 0 n s.
Proof. induction indent as [|c indent IH]; [done|exact IH]. Qed.

Lemma js_slice_from_bounds (n m : nat) :
  let len := Z.of_nat (n + m) in
  let clamp i := if i <? 0 then Z.max (len + i) 0 else Z.min i len in
  Z.to_nat (clamp (Z.of_nat n)) = n
  ∧ Z.to_nat (Z.max (clamp len - clamp (Z.of_nat n)) 0) = m.
Proof.
  simpl.
  assert ((Z.of_nat n <? 0) = false) as -> by (apply Z.ltb_ge; lia).
  assert ((Z.of_nat (n + m) <? 0) = false) as -> by (apply Z.ltb_ge; lia).
  lia.
Qed.

Lemma js_slice_from_app indent s :
  js_slice_from (indent +:+ s) (js_length indent) = s.
Proof.
  unfold js_slice_from, js_slice, js_length.
  rewrite string_app_length.
  destruct (js_slice_from_bounds (String.length indent) (String.length s))
    as [Hfrom Hlen].
  cbv zeta in Hfrom, Hlen. rewrite Hfrom, Hlen.
  by rewrite substring_skip, substring_all.
Qed.

(** X22.  [firstNonWhitespaceIndex] answers -1 exactly on lines of spaces
    and tabs only; otherwise it answers the length of the indentation, and
    what follows that index starts with the first other character. *)
Theorem firstNonWhitespaceIndex_is_indent_length str :
  (blank str = true → ActionJoin.firstNonWhitespaceIndex str = -1)
  ∧ (blank str = false →
     ∃ indent c rest,
       str = indent +:+ String c rest
       ∧ blank indent = true ∧ is_blank c = false
       ∧ ActionJoin.firstNonWhitespaceIndex str = js_length indent
       ∧ js_slice_from str (ActionJoin.firstNonWhitespaceIndex str)
         = String c rest).
Proof.
  split.
  - apply firstNonWhitespaceIndex_from_blank.
  - intros Hb.
    destruct (firstNonWhitespaceIndex_from_found str 0 Hb)
      as (indent & c & rest & -> & Hi & Hc & Hidx).
    exists indent, c, rest. unfold ActionJoin.firstNonWhitespaceIndex.
    rewrite Hidx, Z.add_0_l. repeat split; try done.
    apply js_slice_from_app.
Qed.

Lemma joinLine_blank joinspaces lineText state :
  blank lineText = true → ActionJoin.joinLine joinspaces lineText state = state.
Proof.
  intros Hb. unfold ActionJoin.joinLine. destruct state as [text delta].
  unfold ActionJoin.firstNonWhitespaceIndex.
  by rewrite firstNonWhitespaceIndex_from_blank.
Qed.

(** X23.  Lines of spaces and tabs only (empty lines included) add nothing
    to a join: the result is that of joining the other lines. *)
Theorem join_skips_blank_lines joinspaces lineTexts startLineText :
  ActionJoin.joinLines joinspaces lineTexts startLineText
  = ActionJoin.joinLines joinspaces
      (filter (λ lineText, blank lineText = false) lineTexts) startLineText.
Proof.
  unfold ActionJoin.joinLines.
  generalize (startLineText, 0). induction lineTexts as [|l ls IH];
    intros state; [done|].
  destruct (blank l) eqn:Hb.
  - rewrite filter_cons_False by (by rewrite Hb). simpl.
    rewrite joinLine_blank by done. apply IH.
  - rewrite filter_cons_True by done. simpl. apply IH.
Qed.

Lemma joinLine_grows joinspaces lineText text delta :
  ∃ piece,
    (ActionJoin.joinLine joinspaces lineText (text, delta)).1
    = text +:+ piece
    ∧ ((ActionJoin.joinLine joinspaces lineText (text, delta)).2 = delta
       ∧ piece = EmptyString
       ∨ (ActionJoin.joinLine joinspaces lineText (text, delta)).2
         = js_length piece).
Proof.
  unfold ActionJoin.joinLine.
  destruct (0 <=? ActionJoin.firstNonWhitespaceIndex lineText).
  - eexists. split; [reflexivity|]. right. cbn [snd].
    unfold js_length. rewrite string_app_length. lia.
  - exists EmptyString. split; [by rewrite string_app_nil_r|]. by left.
Qed.

(** X24.  The joined text starts with the start line's text, and the
    column offset returned with it lies within what was appended: the
    cursor column, the joined length less that offset, falls at or after
    the end of the start line's text and within the joined text. *)
Theorem join_keeps_start_line joinspaces lineTexts startLineText :
  ∃ appended,
    (ActionJoin.joinLines joinspaces lineTexts startLineText).1
    = startLineText +:+ appended
    ∧ 0 <= (ActionJoin.joinLines joinspaces lineTexts startLineText).2
      <= js_length appended.
Proof.
  unfold ActionJoin.joinLines.
  assert (Hgen : ∀ text delta appended,
    text = startLineText +:+ appended →
    0 <= delta <= js_length appended →
    ∃ appended',
      (foldl (λ state lineText, ActionJoin.joinLine joinspaces lineText state)
         (text, delta) lineTexts).1 = startLineText +:+ appended'
      ∧ 0 <= (foldl (λ state lineText,
                       ActionJoin.joinLine joinspaces lineText state)
                (text, delta) lineTexts).2 <= js_length appended').
  { induction lineTexts as [|l ls IH]; intros text delta appended Ht Hd.
    - exists appended. done.
    - cbn [foldl].
      destruct (joinLine_grows joinspaces l text delta)
        as (piece & Htext & Hdelta).
      destruct (ActionJoin.joinLine joinspaces l (text, delta))
        as [text' delta'] eqn:Hjoin.
      simpl in Htext, Hdelta.
      apply (IH text' delta' (appended +:+ piece)).
      + by rewrite Htext, Ht, string_app_assoc.
      + unfold js_length in *. rewrite string_app_length.
        destruct Hdelta as [[Hd' Hp]|Hd']; subst; simpl; lia. }
  apply (Hgen startLineText 0 EmptyString).
  - by rewrite string_app_nil_r.
  - unfold js_length. simpl. lia.
Qed.

(** X25.  For every pending count, [J] and [gJ] join the same number of
    line ends; for a count within the safe integers that is one for no
    count, 1 and 2, and one less than the count above that. *)
Theorem join_counts_agree count :
  0 <= count →
  ActionJoin.joinCount (countOrOne count)
  = ActionJoinNoWhitespace.joinCount count
  ∧ (count <= MAX_SAFE_INTEGER →
     ActionJoinNoWhitespace.joinCount count = Z.max 1 (count - 1)).
Proof.
  intros Hc. split.
  - unfold ActionJoin.joinCount, ActionJoinNoWhitespace.joinCount,
      countOrOne.
    destruct (Z.eqb_spec count 0) as [->|Hnz]; [done|].
    destruct (Z.ltb_spec 2 count) as [Hgt|Hle].
    + pose proof (js_round_pos (count - 1) ltac:(lia)) as Hpos.
      unfold js_sub.
      destruct (Z.eqb_spec (js_round (count - 1)) 0); [lia|done].
    + assert (count = 1 ∨ count = 2) as [-> | ->] by lia; done.
  - intros Hsafe. unfold ActionJoinNoWhitespace.joinCount.
    destruct (Z.ltb_spec 2 count) as [Hgt|Hle]; [|lia].
    rewrite js_sub_safe; unfold MAX_SAFE_INTEGER in *; lia.
Qed.

(** *** Toggling case *)

Lemma toggle_char_involutive (c : ascii) :
  let toggle c :=
    if bool_decide (lower_ascii c = c)
    then ToggleCaseAndMoveForward.upper_ascii c else lower_ascii c in
  toggle (toggle c) = c.
Proof.
  destruct c as [[] [] [] [] [] [] [] []]; reflexivity.
Qed.

(** X26.  On ASCII text, toggling the case twice gives the text back, and
    toggling keeps the length. *)
Theorem toggleCase_involutive text :
  ToggleCaseAndMoveForward.is_ascii_text text = true →
  ToggleCaseAndMoveForward.toggleCase
    (ToggleCaseAndMoveForward.toggleCase text) = text
  ∧ String.length (ToggleCaseAndMoveForward.toggleCase text)
    = String.length text.
Proof.
  intros _. induction text as [|c text [IH1 IH2]]; [done|].
  cbn [ToggleCaseAndMoveForward.toggleCase]. split.
  - rewrite IH1. f_equal. apply toggle_char_involutive.
  - simpl. by rewrite IH2.
Qed.

(** *** Selecting registers *)

Section SelectMore.
Variable isValidRegister : string → bool.



End SelectMore.

(** *** The further properties on sample inputs *)

Lemma typed_run_is_one_change_witness :
  DocumentContentChangeAction.contentChanges
    (DocumentContentChangeAction.addChanges
       [vscode.mkChange (Sample.emptyRange 1 4) 16 0 "h";
        vscode.mkChange (Sample.emptyRange 1 5) 17 0 "e";
        vscode.mkChange (Sample.emptyRange 1 6) 18 0 "y"]
       DocumentContentChangeAction.new)
  = [vscode.mkChange (Sample.emptyRange 1 4) 16 0 "hey"].
Proof.
  apply (typed_run_is_one_change
           (vscode.mkChange (Sample.emptyRange 1 4) 16 0 "h")
           [vscode.mkChange (Sample.emptyRange 1 5) 17 0 "e";
            vscode.mkChange (Sample.emptyRange 1 6) 18 0 "y"]).
  repeat constructor.
Defined.

Lemma typed_text_replays_at_cursor_witness :
  DocumentContentChangeAction.exec laterOfTwo (Sample.position 7 2)
    (DocumentContentChangeAction.addChanges
       [vscode.mkChange (Sample.emptyRange 1 4) 16 0 "h";
        vscode.mkChange (Sample.emptyRange 1 5) 17 0 "e";
        vscode.mkChange (Sample.emptyRange 1 6) 18 0 "y"]
       DocumentContentChangeAction.new)
  = Some [InsertText (Sample.position 7 2) "hey"].
Proof.
  apply (typed_text_replays_at_cursor laterOfTwo (Sample.position 7 2)
           (vscode.mkChange (Sample.emptyRange 1 4) 16 0 "h")
           [vscode.mkChange (Sample.emptyRange 1 5) 17 0 "e";
            vscode.mkChange (Sample.emptyRange 1 6) 18 0 "y"]).
  - simpl. lia.
  - simpl. lia.
  - reflexivity.
  - repeat constructor.
Defined.


Lemma replacement_replays_with_its_width_witness :
  DocumentContentChangeAction.exec laterOfTwo (Sample.position 3 5)
    (DocumentContentChangeAction.mk
       [vscode.mkChange
          (vscode.mkRange (Sample.position 0 2) (Sample.position 0 6))
          2 4 "word"])
  = Some [ReplaceText
            (vscode.mkRange (Sample.position 3 5) (Sample.position 3 9))
            "word"].
Proof.
  apply (replacement_replays_with_its_width laterOfTwo (Sample.position 3 5)
           0 2 6 2 4 "word").
  - simpl. lia.
  - simpl. lia.
  - lia.
  - intros [Htext _]. discriminate Htext.
Defined.

Lemma delete_key_drops_last_digit_witness :
  let vimState :=
    with_recordedState (with_count 407 new_RecordedState)
      (new_VimState Sample.editor) in
  ∃ keys',
    ActionDeleteCharWithDeleteKey.execCount id
      (mkAction (Tag.OtherAction "<Del>") ["<Del>"%string] true)
      vimState ["4"; "0"; "7"]%string
    = (mkAction (Tag.OtherAction "<Del>") ["<Del>"%string] false,
       with_recordedState (with_count 40 new_RecordedState)
         (new_VimState Sample.editor),
       keys')
    ∧ count ∘ recordedState
        <$> ModeHandler.handleKeys keys' (new_VimState Sample.editor)
      = Some 40.
Proof.
  intros vimState.
  destruct (delete_key_drops_last_digit id
              (mkAction (Tag.OtherAction "<Del>") ["<Del>"%string] true)
              vimState ["4"; "0"; "7"]%string Sample.editor)
    as (keys' & Hexec & _ & Hkeys);
    [simpl; lia|vm_compute; discriminate|].
  exists keys'. split; [exact Hexec|]. apply Hkeys. simpl. lia.
Defined.

Lemma digit_then_delete_restores_count_witness :
  let vimState :=
    with_recordedState (with_count 12 new_RecordedState)
      (new_VimState Sample.editor) in
  ∃ vimState1,
    ModeHandler.handleKey "7" vimState = Some vimState1
    ∧ count (recordedState vimState1) = 127
    ∧ count (recordedState
               (ActionDeleteCharWithDeleteKey.execCount id
                  (mkAction (Tag.OtherAction "<Del>") ["<Del>"%string] true)
                  vimState1 []).1.2) = 12.
Proof.
  intros vimState.
  destruct (digit_then_delete_restores_count id 7
              (mkAction (Tag.OtherAction "<Del>") ["<Del>"%string] true)
              vimState [])
    as (vimState1 & Hkey & Hcount);
    [lia|simpl; lia|simpl; lia|simpl; lia|vm_compute; discriminate|].
  exists vimState1. change (digitKey 7) with "7"%string in Hkey.
  split; [exact Hkey|]. split; [|exact Hcount].
  assert (Some vimState1 = ModeHandler.handleKey "7" vimState) as Heq
    by (by rewrite Hkey).
  vm_compute in Heq. injection Heq as ->. reflexivity.
Defined.

Lemma insert_commands_apply_alike_witness :
  let always (_ : VimState) (_ : list string) := true in
  let counted :=
    default (new_VimState Sample.editor)
      (ModeHandler.handleKeys ["3"%string] (new_VimState Sample.editor)) in
  let operated :=
    default (new_VimState Sample.editor)
      (ModeHandler.handleKeys ["d"%string] (new_VimState Sample.editor)) in
  CommandInsertAtCursor.doesActionApply always counted ["i"%string] = true
  ∧ CommandInsertAfterCursor.doesActionApply always operated ["a"%string]
    = CommandInsertAtCursor.doesActionApply always operated ["a"%string].
Proof.
  intros always counted operated. split.
  - apply (proj2 (insert_commands_apply_alike always counted ["i"%string])).
    split; [reflexivity|]. repeat constructor.
  - symmetry.
    apply (proj1 (insert_commands_apply_alike always operated ["a"%string])).
Defined.

Lemma quit_applies_only_while_recording_witness :
  let always (_ : VimState) (_ : list string) := true in
  CommandQuitRecordMacro.doesActionApply always (new_VimState Sample.editor)
    ["q"%string] = false
  ∧ match CommandRecordMacro.exec (CommandRecordMacro.new "a")
            (new_VimState Sample.editor) (∅ : Register.table) with
    | Some (vimState', _) =>
        CommandQuitRecordMacro.doesActionApply always vimState' ["q"%string]
        = true
    | None => False
    end.
Proof.
  intros always.
  destruct (quit_applies_only_while_recording always ["q"%string])
    as (Hfresh & Hrecording & _).
  split; [apply Hfresh|].
  destruct (CommandRecordMacro.exec (CommandRecordMacro.new "a")
              (new_VimState Sample.editor) (∅ : Register.table))
    as [[vimState' registers']|] eqn:Hexec; [|discriminate Hexec].
  exact (Hrecording _ _ _ _ _ Hexec).
Defined.

Lemma upper_case_key_creates_register_witness :
  let actions := [mkAction (Tag.OtherAction "x") ["x"%string] true] in
  snd <$> recordMacro "B" actions (new_VimState Sample.editor)
            (∅ : Register.table)
  = Some ({[ "b"%string :=
               MacroContent (mkRecordedState 0 0 actions "b") ]}
          : Register.table).
Proof.
  intros actions.
  destruct (upper_case_key_creates_register "B" actions
              (new_VimState Sample.editor) (∅ : Register.table))
    as (vimState' & Hrun); [reflexivity|reflexivity|].
  rewrite Hrun. reflexivity.
Defined.

Lemma upper_case_key_on_text_register_records_nothing_witness :
  let actions := [mkAction (Tag.OtherAction "x") ["x"%string] true] in
  let registers : Register.table :=
    {[ "b"%string := TextContent "yanked" CharacterWise ]} in
  snd <$> recordMacro "B" actions (new_VimState Sample.editor) registers
  = Some registers.
Proof.
  intros actions registers.
  destruct (upper_case_key_on_text_register_records_nothing "B" actions
              (new_VimState Sample.editor) registers "yanked" CharacterWise)
    as (vimState' & Hrun & _); [reflexivity|reflexivity|].
  rewrite Hrun. reflexivity.
Defined.

Lemma recording_touches_one_register_witness :
  let actions := [mkAction (Tag.OtherAction "x") ["x"%string] true] in
  let registers : Register.table :=
    {[ "c"%string := TextContent "kept" LineWise ]} in
  ∃ vimState' (registers' : Register.table),
    recordMacro "b" actions (new_VimState Sample.editor) registers
    = Some (vimState', registers')
    ∧ registers' !! "c"%string = Some (TextContent "kept" LineWise).
Proof.
  intros actions registers.
  destruct (recording_touches_one_register "b" actions
              (new_VimState Sample.editor) registers)
    as (vimState' & registers' & Hrun & Hframe & _).
  exists vimState', registers'. split; [exact Hrun|].
  rewrite Hframe; [reflexivity|discriminate].
Defined.

Lemma execute_replays_what_was_recorded_witness :
  let actions := [mkAction (Tag.OtherAction "x") ["x"%string] true] in
  snd <$> CommandExecuteMacro.exec Sample.isValidRegister
            (CommandExecuteMacro.new "b") (∅ : Register.table)
  = Some []
  ∧ match recordMacro "b" actions (new_VimState Sample.editor)
            (∅ : Register.table) with
    | Some (_, registers') =>
        snd <$> CommandExecuteMacro.exec Sample.isValidRegister
                  (CommandExecuteMacro.new "B") registers'
        = Some [MacroReplay "b" "contentChange"]
    | None => False
    end.
Proof.
  intros actions.
  destruct (execute_replays_what_was_recorded Sample.isValidRegister)
    as [Hundefined Hrecorded].
  split; [by apply Hundefined|].
  destruct (recordMacro "b" actions (new_VimState Sample.editor)
              (∅ : Register.table))
    as [[vimState' registers']|] eqn:Hrun; [|discriminate Hrun].
  exact (Hrecorded "b"%string "B"%string _ _ _ _ _ Hrun eq_refl).
Defined.

Lemma cursor_position_set_then_get_witness :
  match set_cursorStopPosition Sample.Position_isValid (Sample.position 9 9)
          (cursors_push (Sample.caret 1 1) (new_VimState Sample.editor)) with
  | Some this' =>
      get_cursorStopPosition this' = Some (Sample.position 9 9)
      ∧ get_cursorStartPosition this' = Some (Sample.position 0 0)
      ∧ drop 1 (cursors this') = [Sample.caret 1 1]
  | None => False
  end.
Proof.
  destruct (set_cursorStopPosition Sample.Position_isValid
              (Sample.position 9 9)
              (cursors_push (Sample.caret 1 1) (new_VimState Sample.editor)))
    as [this'|] eqn:Hset; [|discriminate Hset].
  destruct (proj1 (cursor_position_set_then_get Sample.Position_isValid
                     _ _ _) Hset) as (Hstop & Hstart & Hrest & _).
  split; [exact Hstop|]. split; [exact Hstart|exact Hrest].
Defined.

Lemma set_cursors_keeps_distinct_cursors_witness :
  _cursors (set_cursors Sample.Cursor_isValid Sample.Cursor_toString
              [Sample.caret 2 0; Sample.caret 0 0; Sample.caret 1 0]
              (new_VimState Sample.editor))
  = [Sample.caret 2 0; Sample.caret 0 0; Sample.caret 1 0].
Proof.
  apply (proj1 (set_cursors_keeps_distinct_cursors Sample.Cursor_isValid
                  Sample.Cursor_toString Cursor_toString_inj)).
  - discriminate.
  - repeat constructor; rewrite ?elem_of_cons, ?elem_of_nil;
      intros Hin; repeat destruct Hin as [Hin|Hin]; discriminate || done.
Defined.

Lemma isMultiCursor_after_set_cursors_witness :
  isMultiCursor
    (set_cursors Sample.Cursor_isValid Sample.Cursor_toString
       [Sample.caret 0 1; Sample.caret 0 1; Sample.caret 1 3]
       (new_VimState Sample.editor)) = true.
Proof.
  apply (isMultiCursor_after_set_cursors Sample.Cursor_isValid
           Sample.Cursor_toString
           [Sample.caret 0 1; Sample.caret 0 1; Sample.caret 1 3]
           (new_VimState Sample.editor) Cursor_toString_inj).
  - discriminate.
  - exists (Sample.caret 0 1), (Sample.caret 1 3).
    split; [apply list_elem_of_here|].
    split; [do 2 apply list_elem_of_further; apply list_elem_of_here|].
    discriminate.
Defined.

Lemma generateMarkers_never_removes_markers_witness :
  let stale : JsMap.t vscode.Range :=
    [("q"%string, Sample.emptyRange 5 5)] in
  let this :=
    SneakHighlighterV2.generateMarkers Sample.markerGenerator "sf"
      (SneakHighlighterV2.mk [Sample.emptyRange 0 2] stale) in
  is_Some (SneakHighlighterV2.getMarkPosition "q" this).
Proof.
  intros stale this.
  apply (proj1 (generateMarkers_never_removes_markers Sample.markerGenerator
                  "sf" (SneakHighlighterV2.mk [Sample.emptyRange 0 2] stale))).
  by eexists.
Defined.

Lemma marker_positions_are_range_starts_witness :
  ∃ range,
    range ∈ [Sample.emptyRange 0 2; Sample.emptyRange 1 4]
    ∧ Sample.position 1 4 = vscode.start range.
Proof.
  apply (marker_positions_are_range_starts Sample.markerGenerator "sf"
           [Sample.emptyRange 0 2; Sample.emptyRange 1 4] "f"
           (Sample.position 1 4)).
  reflexivity.
Defined.

Lemma firstNonWhitespaceIndex_is_indent_length_witness :
  ActionJoin.firstNonWhitespaceIndex "    " = -1
  ∧ ∃ indent c rest,
      "  return x"%string = indent +:+ String c rest
      ∧ ActionJoin.firstNonWhitespaceIndex "  return x" = js_length indent.
Proof.
  split.
  - apply (proj1 (firstNonWhitespaceIndex_is_indent_length "    ")).
    reflexivity.
  - destruct (proj2 (firstNonWhitespaceIndex_is_indent_length "  return x"))
      as (indent & c & rest & Hstr & _ & _ & Hidx & _); [reflexivity|].
    exists indent, c, rest. split; [exact Hstr|exact Hidx].
Defined.

Lemma join_counts_agree_witness :
  ActionJoin.joinCount (countOrOne 5) = ActionJoinNoWhitespace.joinCount 5
  ∧ ActionJoinNoWhitespace.joinCount 5 = 4.
Proof.
  destruct (join_counts_agree 5) as [Hsame Hone]; [lia|].
  split; [exact Hsame|]. apply Hone. vm_compute. discriminate.
Defined.


Lemma toggleCase_involutive_witness :
  ToggleCaseAndMoveForward.toggleCase
    (ToggleCaseAndMoveForward.toggleCase "Vim 8.2, aBc") = "Vim 8.2, aBc"%string.
Proof.
  apply (proj1 (toggleCase_involutive "Vim 8.2, aBc" eq_refl)).
Defined.

(** The join of the specification of [J] in Vim, on sample lines. *)
Example joinLines_sample :
  ActionJoin.joinLines true
    ["    second."; ""; "  third"; "  ) fourth"]%string "first"
  = ("first second.  third) fourth"%string, 8).
Proof. reflexivity. Qed.

Example toggleCase_sample :
  ToggleCaseAndMoveForward.toggleCase "Vim 8.2, aBc" = "vIM 8.2, AbC"%string.
Proof. reflexivity. Qed.
